(** * TurbuStat: power-spectrum pipeline and spectral regridding

    A shallow embedding of
      - turbustat/statistics/base_pspec2.py   (StatisticBase_PSpec2D)
      - turbustat/statistics/pspec_bispec/pspec.py (PowerSpectrum, PSpec_Distance)
      - turbustat/statistics/vca_vcs/slice_thickness.py (spectral_regrid_cube)

    Numbers: numpy float64 values are idealised as real numbers ([R]); a
    division by zero follows the convention of [R] (the quotient is 0) where
    numpy would produce inf or nan.  Python exceptions are values of [exn];
    warnings are collected in a log.  Functions of numpy, astropy,
    statsmodels, spectral_cube and of modules of the package that are not part
    of the three files above are fields of interface classes. *)

From Stdlib Require Import Reals String List ZArith Lia Lra Bool.
Import ListNotations.
Open Scope R_scope.

(** ** Exceptions, warnings and outcomes *)

Inductive exn : Type :=
| TypeError
| ValueError
| IndexError
| AttributeError
| AssertionError
| UnitConversionError.

(** What a call leaves behind: the warnings it emitted, and either the
    exception that ended it or the value it returned. *)
Record outcome (A : Type) : Type := Outcome {
  warnings : list string;
  value : exn + A
}.
Arguments Outcome {A} _ _.
Arguments warnings {A} _.
Arguments value {A} _.

Definition ret {A} (a : A) : outcome A := Outcome [] (inr a).
Definition raise {A} (e : exn) : outcome A := Outcome [] (inl e).
Definition warn (msg : string) : outcome unit := Outcome [msg] (inr tt).
Definition lift {A} (r : exn + A) : outcome A := Outcome [] r.

Definition bind {A B} (m : outcome A) (k : A -> outcome B) : outcome B :=
  match value m with
  | inl e => Outcome (warnings m) (inl e)
  | inr a => Outcome (warnings m ++ warnings (k a)) (value (k a))
  end.

Declare Scope outcome_scope.
Delimit Scope outcome_scope with outcome.
Notation "x <- m ;; k" := (bind m (fun x => k))
  (at level 61, m at next level, right associativity) : outcome_scope.
Notation "m ;;; k" := (bind m (fun _ => k))
  (at level 61, right associativity) : outcome_scope.
Open Scope outcome_scope.

(** ** numpy helpers *)

Module Np.

(** [np.linspace(start, stop, num)]: [num] evenly spaced samples, the last one
    being [stop]; a single sample is [start]; a negative [num] is an error. *)
Definition linspace_samples (start stop : R) (num : nat) : list R :=
  let div := (num - 1)%nat in
  map (fun i => if (div =? 0)%nat then start + INR i * (stop - start)
                else start + INR i * ((stop - start) / INR div))
      (seq 0 num).

Definition linspace (start stop : R) (num : Z) : exn + list R :=
  if (num <? 0)%Z then inl ValueError
  else inr (linspace_samples start stop (Z.to_nat num)).

(** [a.min()] and [a.max()] of a one-dimensional array; empty arrays raise. *)
Definition amin (a : list R) : exn + R :=
  match a with
  | [] => inl ValueError
  | x :: xs => inr (fold_left Rmin xs x)
  end.

Definition amax (a : list R) : exn + R :=
  match a with
  | [] => inl ValueError
  | x :: xs => inr (fold_left Rmax xs x)
  end.

(** [np.diff(a[:2])[0]]: the difference of the first two entries. *)
Definition diff_first2 (a : list R) : exn + R :=
  match a with
  | a0 :: a1 :: _ => inr (a1 - a0)
  | _ => inl IndexError
  end.

(** [np.floor_divide(n, d)] followed by [int(...)]. *)
Definition floor_divide (n : nat) (d : R) : Z := Int_part (INR n / d).

(** [a[mask]]: boolean-mask indexing. *)
Fixpoint select {A} (a : list A) (mask : list bool) : list A :=
  match a, mask with
  | x :: a', b :: mask' => if b then x :: select a' mask' else select a' mask'
  | _, _ => []
  end.

(** [sum(x < v)]: how many entries are strictly below [v]. *)
Definition ltb (x v : R) : bool := if Rlt_dec x v then true else false.
Definition count_below (x : list R) (v : R) : Z :=
  Z.of_nat (length (filter (fun xi => ltb xi v) x)).

(** [np.log10] and [np.log(10)]. *)
Definition log10 (x : R) : R := ln x / ln 10.

(** [fftshift] along one axis: the last [n // 2] entries move to the front. *)
Definition fftshift1 {A} (l : list A) : list A :=
  let n := length l in
  let k := (n - n / 2)%nat in
  skipn k l ++ firstn k l.

(** [np.fft.fftshift] of a two-dimensional array (both axes). *)
Definition fftshift {A} (a : list (list A)) : list (list A) :=
  fftshift1 (map fftshift1 a).

(** Element-wise operations on two-dimensional arrays of equal shape. *)
Definition map2d {A B} (f : A -> B) (a : list (list A)) : list (list B) :=
  map (map f) a.

Fixpoint zip_with {A B C} (f : A -> B -> C) (a : list A) (b : list B) : list C :=
  match a, b with
  | x :: a', y :: b' => f x y :: zip_with f a' b'
  | _, _ => []
  end.

Definition zip_with2d {A B C} (f : A -> B -> C)
  (a : list (list A)) (b : list (list B)) : list (list C) :=
  zip_with (zip_with f) a b.

End Np.

(** ** slice_thickness.py *)

Module SliceThickness.

(** What [spectral_regrid_cube] uses of astropy.units and spectral_cube. *)
Class SpectralCubeLib : Type := {
  (** astropy units *)
  Unit : Type;
  (** [unit.is_equivalent(u.pix)] *)
  is_equivalent_pix : Unit -> bool;
  (** [Quantity.to(unit)]: the factor from the first unit to the second, when
      the two are convertible; otherwise the conversion raises. *)
  unit_factor : Unit -> Unit -> option R;
  (** the data of a cube, apart from its spectral axis *)
  CubeData : Type;
  (** [cube.spectral_smooth(Gaussian1DKernel(width))] *)
  spectral_smooth : list R * Unit * CubeData -> R -> list R * Unit * CubeData;
  (** [cube.spectral_interpolate(new_axis, suppress_smooth_warning=True)] *)
  spectral_interpolate :
    list R * Unit * CubeData -> list R -> exn + list R * Unit * CubeData;
  (** [cube.downsample_axis(factor, axis=0)] *)
  downsample_axis :
    list R * Unit * CubeData -> Z -> exn + list R * Unit * CubeData
}.

Section Regrid.
Context {L : SpectralCubeLib}.

(** A spectral cube: spectral axis values, their unit, and the data. *)
Definition Cube : Type := (list R * Unit * CubeData)%type.
Definition spectral_axis (c : Cube) : list R := fst (fst c).
Definition spectral_unit (c : Cube) : Unit := snd (fst c).
(** [cube.shape[0]] *)
Definition shape0 (c : Cube) : nat := length (spectral_axis c).

(** The [cube] argument: a spectral cube or some other object. *)
Inductive cube_arg : Type :=
| CubeObj (c : Cube)
| OtherObj.

(** The [channel_width] argument: an int, a Quantity, or something else. *)
Inductive width_arg : Type :=
| WInt (n : Z)
| WQuantity (v : R) (u : Unit)
| WOther.

Definition equal_width_msg : string :=
  "The requested channel width match the original channel width. The original cube is returned.".

(** [target_resolution]: the requested width in the cube's spectral unit. *)
Definition target_resolution (v : R) (u : Unit) (c : Cube) (spec_width : R)
  : exn + R :=
  if is_equivalent_pix u then inr (v * spec_width)
  else match unit_factor u (spectral_unit c) with
       | Some k => inr (v * k)
       | None => inl UnitConversionError
       end.

(** The new spectral axis of the regrid branch (lines 121-129). *)
Definition new_specaxis (c : Cube) (diff_factor current_resolution : R)
  : exn + list R :=
  let num_chan := Np.floor_divide (shape0 c) diff_factor in
  match Np.amin (spectral_axis c), Np.amax (spectral_axis c) with
  | inr lo, inr hi =>
      match Np.linspace lo hi num_chan with
      | inr ax => inr (if Rlt_dec current_resolution 0 then rev ax else ax)
      | inl e => inl e
      end
  | inl e, _ => inl e
  | _, inl e => inl e
  end.

Definition gaussian_width (target current : R) : R :=
  let fwhm_factor := sqrt (8 * ln 2) in
  let pixel_scale := Rabs current in
  sqrt (target ^ 2 - current ^ 2) / pixel_scale / fwhm_factor.

Definition spectral_regrid_cube
  (cube : cube_arg) (channel_width : width_arg) (method : string)
  : outcome Cube :=
  match cube with
  | OtherObj => raise TypeError
  | CubeObj cube =>
    if negb (existsb (String.eqb method) ["regrid"; "downsample"]%string)
    then raise ValueError
    else if String.eqb method "downsample" then
      match channel_width with
      | WInt n => lift (downsample_axis cube n)
      | _ => raise TypeError
      end
    else
      match channel_width with
      | WQuantity v u =>
        spec_width <- lift (Np.diff_first2 (spectral_axis cube)) ;;
        current_resolution <- lift (Np.diff_first2 (spectral_axis cube)) ;;
        target <- lift (target_resolution v u cube spec_width) ;;
        let diff_factor := Rabs (target / current_resolution) in
        if Req_dec_T diff_factor 1 then
          warn equal_width_msg ;;; ret cube
        else if Rlt_dec diff_factor 1 then raise ValueError
        else
          let new_cube :=
            spectral_smooth cube (gaussian_width target current_resolution) in
          ax <- lift (new_specaxis cube diff_factor current_resolution) ;;
          lift (spectral_interpolate new_cube ax)
      | _ => raise TypeError
      end
  end.

End Regrid.

End SliceThickness.

(** ** Arrays as numpy hands them around: a scalar or a 1-d array *)

Module NdVal.

Inductive ndval : Type :=
| Scalar (x : R)
| Arr (xs : list R).

Definition ndmap (f : R -> R) (a : ndval) : ndval :=
  match a with
  | Scalar x => Scalar (f x)
  | Arr xs => Arr (map f xs)
  end.

(** A binary operator with numpy's broadcasting: a scalar or a one-element
    array stretches to the other operand; other length mismatches raise. *)
Definition broadcast2 (f : R -> R -> R) (a b : ndval) : exn + ndval :=
  match a, b with
  | Scalar x, Scalar y => inr (Scalar (f x y))
  | Scalar x, Arr ys => inr (Arr (map (f x) ys))
  | Arr xs, Scalar y => inr (Arr (map (fun x => f x y) xs))
  | Arr xs, Arr ys =>
      if (length xs =? length ys)%nat then inr (Arr (Np.zip_with f xs ys))
      else match xs, ys with
           | [x], _ => inr (Arr (map (f x) ys))
           | _, [y] => inr (Arr (map (fun x => f x y) xs))
           | _, _ => inl ValueError
           end
  end.

Definition nd_sub := broadcast2 Rminus.
Definition nd_add := broadcast2 Rplus.
Definition nd_div := broadcast2 Rdiv.
(** [a ** 2], [np.sqrt(a)], [np.abs(a)] *)
Definition nd_square := ndmap (fun x => x ^ 2).
Definition nd_sqrt := ndmap sqrt.
Definition nd_abs := ndmap Rabs.

End NdVal.

(** ** base_pspec2.py and pspec.py *)

Module PSpec.

Import NdVal.

(** Complex numbers, for the Fourier transform. *)
Definition C : Type := (R * R)%type.
Definition Cmod (z : C) : R := sqrt (fst z ^ 2 + snd z ^ 2).

(** A Python argument that is either a Quantity or a plain float. *)
Inductive pyval (Q : Type) : Type :=
| PyQuantity (q : Q)
| PyFloat (v : R).
Arguments PyQuantity {Q} _.
Arguments PyFloat {Q} _.

(** The attributes [fit_pspec] reads of a fitted [Lm_Seg] object. *)
Record Lm_Seg (F : Type) : Type := mkLm_Seg {
  params_size : nat;
  seg_brk : R;
  seg_brk_err : R;
  slopes : list R;
  slope_errs : list R;
  seg_fit : F
}.
Arguments mkLm_Seg {F} _ _ _ _ _ _.
Arguments params_size {F} _.
Arguments seg_brk {F} _.
Arguments seg_brk_err {F} _.
Arguments slopes {F} _.
Arguments slope_errs {F} _.
Arguments seg_fit {F} _.

(** The attributes it reads of a statsmodels OLS result. *)
Record OLSResults : Type := mkOLS {
  params : list R;
  bse : list R
}.

(** What the two files use of modules that are not part of them. *)
Class PSpecLib : Type := {
  (** astropy quantities *)
  Quantity : Type;
  quantity_value : Quantity -> R;
  is_dimensionless : Quantity -> bool;
  (** FITS header and [self._wcs.wcs.cdelt] (input_data_header) *)
  Header : Type;
  header_cdelt : Header -> list R;
  (** [beam.as_kernel(pixscale, y_size=, x_size=).array] (radio_beam) *)
  Beam : Type;
  beam_as_kernel : Beam -> R -> nat -> nat -> list (list R);
  (** [self.apodizing_kernel(alpha=alpha)] (BaseStatisticMixIn), for the
      shape of [self.data] *)
  apodizing_kernel : nat * nat -> R -> list (list R);
  (** the two-dimensional discrete Fourier transform *)
  fft2 : list (list R) -> list (list C);
  (** [psds.pspec(ps2D, return_stddev=, logspacing=, max_bin=)]; the
      logspacing argument is [None] where the caller leaves it out *)
  pspec : list (list R) -> bool -> option bool -> option R ->
          exn + (list R * list R * option (list R));
  (** [fitting_utils.clip_func(arr, low, high)]: a boolean mask *)
  clip_func : list R -> R -> R -> list bool;
  (** [self._to_pixel_freq(value)] (BaseStatisticMixIn) *)
  to_pixel_freq : option Header -> option Quantity -> pyval Quantity -> exn + R;
  (** [Lm_Seg(x, y, brk)] followed by [fit_model(verbose=)] (lm_seg.py) *)
  SegFit : Type;
  Lm_Seg_fit_model : list R -> list R -> R -> bool -> exn + Lm_Seg SegFit;
  (** [sm.OLS(y, sm.add_constant(x), missing='drop').fit()] *)
  OLS_fit : list R -> list R -> exn + OLSResults
}.

(** An attribute of a Python object: unset, or holding a value. *)
Definition attr (A : Type) : Type := option A.
Definition read_attr {A} (a : attr A) : exn + A :=
  match a with
  | Some v => inr v
  | None => inl AttributeError
  end.

(** Methods: functions of the object's state that may mutate it, warn and
    raise.  The state reached when an exception is raised is kept. *)
Definition method (S A : Type) : Type := S -> outcome A * S.

Definition mret {S A} (a : A) : method S A := fun s => (ret a, s).
Definition mraise {S A} (e : exn) : method S A := fun s => (raise e, s).
Definition mwarn {S} (msg : string) : method S unit := fun s => (warn msg, s).
Definition mlift {S A} (r : exn + A) : method S A := fun s => (lift r, s).
Definition get {S A} (proj : S -> attr A) : method S A :=
  fun s => (lift (read_attr (proj s)), s).
Definition modify {S} (f : S -> S) : method S unit := fun s => (ret tt, f s).

Definition mbind {S A B} (m : method S A) (k : A -> method S B) : method S B :=
  fun s =>
    let (o, s1) := m s in
    match value o with
    | inl e => (Outcome (warnings o) (inl e), s1)
    | inr a =>
        let (o2, s2) := k a s1 in
        (Outcome (warnings o ++ warnings o2) (value o2), s2)
    end.

Declare Scope method_scope.
Delimit Scope method_scope with method.
Notation "x <- m ;; k" := (mbind m (fun x => k))
  (at level 61, m at next level, right associativity) : method_scope.
Notation "m ;;; k" := (mbind m (fun _ => k))
  (at level 61, right associativity) : method_scope.

Section Pipeline.
Context {L : PSpecLib}.

(** What [self.fit] holds: the fit of [Lm_Seg] or the OLS result. *)
Inductive Fit : Type :=
| FitSeg (f : SegFit)
| FitOLS (r : OLSResults).

(** The attributes of a [PowerSpectrum] object. *)
Record PowerSpectrum : Type := mkPS {
  data : list (list R);
  weighted_data : list (list R);
  header : option Header;
  _wcs : attr (list R);
  _beam : attr Beam;
  distance : attr Quantity;
  _ps2D : attr (list (list R));
  _freqs : attr (list R);
  _ps1D : attr (list R);
  _ps1D_stddev : attr (option (list R));
  _stddev_flag : attr bool;
  low_cut : attr R;
  high_cut : attr R;
  _brk : attr (option R);
  _brk_err : attr (option R);
  _slope : attr ndval;
  _slope_err : attr ndval;
  fit : attr Fit
}.

Definition set_ps2D v (p : PowerSpectrum) : PowerSpectrum :=
  mkPS (data p) (weighted_data p) (header p) (_wcs p) (_beam p) (distance p)
       (Some v) (_freqs p) (_ps1D p) (_ps1D_stddev p) (_stddev_flag p)
       (low_cut p) (high_cut p) (_brk p) (_brk_err p) (_slope p)
       (_slope_err p) (fit p).
Definition set_freqs v (p : PowerSpectrum) : PowerSpectrum :=
  mkPS (data p) (weighted_data p) (header p) (_wcs p) (_beam p) (distance p)
       (_ps2D p) (Some v) (_ps1D p) (_ps1D_stddev p) (_stddev_flag p)
       (low_cut p) (high_cut p) (_brk p) (_brk_err p) (_slope p)
       (_slope_err p) (fit p).
Definition set_ps1D v (p : PowerSpectrum) : PowerSpectrum :=
  mkPS (data p) (weighted_data p) (header p) (_wcs p) (_beam p) (distance p)
       (_ps2D p) (_freqs p) (Some v) (_ps1D_stddev p) (_stddev_flag p)
       (low_cut p) (high_cut p) (_brk p) (_brk_err p) (_slope p)
       (_slope_err p) (fit p).
Definition set_ps1D_stddev v (p : PowerSpectrum) : PowerSpectrum :=
  mkPS (data p) (weighted_data p) (header p) (_wcs p) (_beam p) (distance p)
       (_ps2D p) (_freqs p) (_ps1D p) (Some v) (_stddev_flag p)
       (low_cut p) (high_cut p) (_brk p) (_brk_err p) (_slope p)
       (_slope_err p) (fit p).
Definition set_stddev_flag v (p : PowerSpectrum) : PowerSpectrum :=
  mkPS (data p) (weighted_data p) (header p) (_wcs p) (_beam p) (distance p)
       (_ps2D p) (_freqs p) (_ps1D p) (_ps1D_stddev p) (Some v)
       (low_cut p) (high_cut p) (_brk p) (_brk_err p) (_slope p)
       (_slope_err p) (fit p).
Definition set_low_cut v (p : PowerSpectrum) : PowerSpectrum :=
  mkPS (data p) (weighted_data p) (header p) (_wcs p) (_beam p) (distance p)
       (_ps2D p) (_freqs p) (_ps1D p) (_ps1D_stddev p) (_stddev_flag p)
       (Some v) (high_cut p) (_brk p) (_brk_err p) (_slope p)
       (_slope_err p) (fit p).
Definition set_high_cut v (p : PowerSpectrum) : PowerSpectrum :=
  mkPS (data p) (weighted_data p) (header p) (_wcs p) (_beam p) (distance p)
       (_ps2D p) (_freqs p) (_ps1D p) (_ps1D_stddev p) (_stddev_flag p)
       (low_cut p) (Some v) (_brk p) (_brk_err p) (_slope p)
       (_slope_err p) (fit p).
Definition set_brk v (p : PowerSpectrum) : PowerSpectrum :=
  mkPS (data p) (weighted_data p) (header p) (_wcs p) (_beam p) (distance p)
       (_ps2D p) (_freqs p) (_ps1D p) (_ps1D_stddev p) (_stddev_flag p)
       (low_cut p) (high_cut p) (Some v) (_brk_err p) (_slope p)
       (_slope_err p) (fit p).
Definition set_brk_err v (p : PowerSpectrum) : PowerSpectrum :=
  mkPS (data p) (weighted_data p) (header p) (_wcs p) (_beam p) (distance p)
       (_ps2D p) (_freqs p) (_ps1D p) (_ps1D_stddev p) (_stddev_flag p)
       (low_cut p) (high_cut p) (_brk p) (Some v) (_slope p)
       (_slope_err p) (fit p).
Definition set_slope v (p : PowerSpectrum) : PowerSpectrum :=
  mkPS (data p) (weighted_data p) (header p) (_wcs p) (_beam p) (distance p)
       (_ps2D p) (_freqs p) (_ps1D p) (_ps1D_stddev p) (_stddev_flag p)
       (low_cut p) (high_cut p) (_brk p) (_brk_err p) (Some v)
       (_slope_err p) (fit p).
Definition set_slope_err v (p : PowerSpectrum) : PowerSpectrum :=
  mkPS (data p) (weighted_data p) (header p) (_wcs p) (_beam p) (distance p)
       (_ps2D p) (_freqs p) (_ps1D p) (_ps1D_stddev p) (_stddev_flag p)
       (low_cut p) (high_cut p) (_brk p) (_brk_err p) (_slope p)
       (Some v) (fit p).
Definition set_fit v (p : PowerSpectrum) : PowerSpectrum :=
  mkPS (data p) (weighted_data p) (header p) (_wcs p) (_beam p) (distance p)
       (_ps2D p) (_freqs p) (_ps1D p) (_ps1D_stddev p) (_stddev_flag p)
       (low_cut p) (high_cut p) (_brk p) (_brk_err p) (_slope p)
       (_slope_err p) (Some v).

Open Scope method_scope.

(** [a.shape] of a two-dimensional array, and [max(a.shape)]. *)
Definition shape2d {A} (a : list (list A)) : nat * nat :=
  (length a, length (hd [] a)).
Definition max_shape {A} (a : list (list A)) : nat :=
  Nat.max (fst (shape2d a)) (snd (shape2d a)).

(** [a[np.isnan(a)] = 0.0]; a NaN entry of an input array is [None]. *)
Definition nan_to_zero (a : list (list (option R))) : list (list R) :=
  Np.map2d (fun v => match v with Some x => x | None => 0 end) a.

(** [PowerSpectrum.__init__] (pspec.py, lines 34-59).  [input_data_header]
    stores the image and, with a header, the WCS; image and weights have the
    same shape. *)
Definition init (img : list (list (option R))) (hdr : option Header)
  (weights : option (list (list (option R))))
  (dist : option Quantity) (beam : option Beam) : PowerSpectrum :=
  let data := nan_to_zero img in
  let weights :=
    match weights with
    | None => Np.map2d (fun _ => 1) data
    | Some w => nan_to_zero w
    end in
  mkPS data (Np.zip_with2d Rmult data weights) hdr
       (option_map header_cdelt hdr) beam dist
       None None None (Some None) None None None None None None None None.

(** Modelled from the spec: [rfft_to_fft] (turbustat/statistics/rfft_to_fft.py),
    whose output [compute_pspec] squares to obtain "the squared magnitude of
    the 2D Fourier transform": the magnitude of the full transform. *)
Definition rfft_to_fft (a : list (list R)) : list (list R) :=
  Np.map2d Cmod (fft2 a).

(** [np.power(a, 2.)] *)
Definition power2 (a : list (list R)) : list (list R) :=
  Np.map2d (fun x => x ^ 2) a.

(** [compute_pspec] (pspec.py, lines 61-82). *)
Definition compute_pspec (beam_correct apodize : bool) (alpha : R)
  : method PowerSpectrum unit :=
  fun self =>
    let fft :=
      if apodize then
        let apod_kernel := apodizing_kernel (shape2d (data self)) alpha in
        Np.fftshift
          (rfft_to_fft (Np.zip_with2d Rmult (weighted_data self) apod_kernel))
      else Np.fftshift (rfft_to_fft (weighted_data self)) in
    match (if beam_correct then _beam self else None) with
    | Some beam =>
        (wcs <- get _wcs ;;
         cdelt0 <- mlift (match wcs with
                          | c :: _ => inr c
                          | [] => inl IndexError
                          end) ;;
         let beam_kern :=
           beam_as_kernel beam cdelt0 (fst (shape2d (data self)))
                          (snd (shape2d (data self))) in
         let beam_fft := Np.fftshift (rfft_to_fft beam_kern) in
         modify (set_ps2D (power2 (Np.zip_with2d Rdiv fft beam_fft)))) self
    | None => modify (set_ps2D (power2 fft)) self
    end.

(** [compute_radial_pspec] (base_pspec2.py, lines 55-83); unpacking a tuple
    of the wrong length raises ValueError; dividing by [u.pix] leaves the
    values of the frequencies as they are. *)
Definition compute_radial_pspec (return_stddev logspacing : bool)
  (max_bin : option R) : method PowerSpectrum unit :=
  (if return_stddev then
     ps2D <- get _ps2D ;;
     r <- mlift (pspec ps2D return_stddev (Some logspacing) max_bin) ;;
     match r with
     | (f, p1, Some sd) =>
         modify (set_freqs f) ;;; modify (set_ps1D p1) ;;;
         modify (set_ps1D_stddev (Some sd))
     | (_, _, None) => mraise ValueError
     end ;;;
     modify (set_stddev_flag true)
   else
     ps2D <- get _ps2D ;;
     r <- mlift (pspec ps2D return_stddev None max_bin) ;;
     match r with
     | (f, p1, None) => modify (set_freqs f) ;;; modify (set_ps1D p1)
     | (_, _, Some _) => mraise ValueError
     end ;;;
     modify (set_stddev_flag false)) ;;;
  f <- get _freqs ;;
  modify (set_freqs f).

(** The [ps1D_stddev] property (base_pspec2.py, lines 33-42): the Warning
    object is built and dropped. *)
Definition ps1D_stddev : method PowerSpectrum (option (list R)) :=
  flag <- get _stddev_flag ;;
  (if negb flag then mret tt else mret tt) ;;;
  get _ps1D_stddev.

Definition not_enough_points_msg : string :=
  "Not enough points to fit to. Ignoring break.".
Definition break_failed_msg : string :=
  "Model with break failed, reverting to model                               without break.".

(** [self._to_pixel_freq(q)] *)
Definition _to_pixel_freq (q : pyval Quantity) : method PowerSpectrum R :=
  fun self => mlift (to_pixel_freq (header self) (distance self) q) self.

(** Lines 117-127: the fit limits. *)
Definition set_fit_limits (low_cut_arg high_cut_arg : option (pyval Quantity))
  : method PowerSpectrum unit :=
  match low_cut_arg with
  | None =>
      ps2D <- get _ps2D ;;
      modify (set_low_cut (1 / (0.5 * INR (max_shape ps2D))))
  | Some q => v <- _to_pixel_freq q ;; modify (set_low_cut v)
  end ;;;
  match high_cut_arg with
  | None =>
      freqs <- get _freqs ;;
      m <- mlift (Np.amax freqs) ;;
      modify (set_high_cut (m + 1))
  | Some q => v <- _to_pixel_freq q ;; modify (set_high_cut v)
  end.

(** Lines 129-132: the data to fit to. *)
Definition fit_data : method PowerSpectrum (list R * list R) :=
  freqs <- get _freqs ;;
  lo <- get low_cut ;;
  hi <- get high_cut ;;
  let x := map Np.log10 (Np.select freqs (clip_func freqs lo hi)) in
  ps1D <- get _ps1D ;;
  let y := map Np.log10 (Np.select ps1D (clip_func freqs lo hi)) in
  mret (x, y).

(** Lines 136-143: the break guess in log space. *)
Definition break_guess (log_break : bool) (brk : pyval Quantity)
  : method PowerSpectrum R :=
  if negb log_break then
    v <- _to_pixel_freq brk ;; mret (Np.log10 v)
  else
    match brk with
    | PyQuantity q =>
        if is_dimensionless q then mret (quantity_value q)
        else mraise AssertionError
    | PyFloat v => mret v
    end.

(** Lines 134-178: the fit with a break; returns the data left to fit. *)
Definition fit_break (brk : option (pyval Quantity)) (log_break : bool)
  (min_fits_pts : Z) (verbose : bool) (x y : list R)
  : method PowerSpectrum (list R * list R) :=
  match brk with
  | Some b =>
      b <- break_guess log_break b ;;
      brk_fit <- mlift (Lm_Seg_fit_model x y b verbose) ;;
      if (params_size brk_fit =? 5)%nat then
        if (Np.count_below x (seg_brk brk_fit) <? min_fits_pts)%Z then
          mwarn not_enough_points_msg ;;;
          modify (set_brk None) ;;;
          mret (x, y)
        else
          let good_pts := map (fun xi => Np.ltb xi (seg_brk brk_fit)) x in
          modify (set_brk (Some (Rpower 10 (seg_brk brk_fit)))) ;;;
          bq <- get _brk ;;
          bv <- mlift (read_attr bq) ;;
          modify (set_brk_err (Some (ln 10 * bv * seg_brk_err brk_fit))) ;;;
          modify (set_slope (Arr (slopes brk_fit))) ;;;
          modify (set_slope_err (Arr (slope_errs brk_fit))) ;;;
          modify (set_fit (FitSeg (seg_fit brk_fit))) ;;;
          mret (Np.select x good_pts, Np.select y good_pts)
      else
        modify (set_brk None) ;;;
        mwarn break_failed_msg ;;;
        mret (x, y)
  | None =>
      modify (set_brk None) ;;;
      modify (set_brk_err None) ;;;
      mret (x, y)
  end.

(** [a[1]] *)
Definition index1 (a : list R) : exn + R :=
  match nth_error a 1 with
  | Some v => inr v
  | None => inl IndexError
  end.

(** Lines 180-188: the fit without a break. *)
Definition fit_no_break (x y : list R) : method PowerSpectrum unit :=
  b <- get _brk ;;
  match b with
  | None =>
      r <- mlift (OLS_fit x y) ;;
      modify (set_fit (FitOLS r)) ;;;
      s <- mlift (index1 (params r)) ;;
      modify (set_slope (Scalar s)) ;;;
      e <- mlift (index1 (bse r)) ;;
      modify (set_slope_err (Scalar e))
  | Some _ => mret tt
  end.

(** [fit_pspec] (base_pspec2.py, lines 85-188). *)
Definition fit_pspec (brk : option (pyval Quantity)) (log_break : bool)
  (low_cut_arg high_cut_arg : option (pyval Quantity))
  (min_fits_pts : Z) (verbose : bool) : method PowerSpectrum unit :=
  set_fit_limits low_cut_arg high_cut_arg ;;;
  xy <- fit_data ;;
  xy' <- fit_break brk log_break min_fits_pts verbose (fst xy) (snd xy) ;;
  fit_no_break (fst xy') (snd xy').

(** The [slope], [slope_err], [brk] and [brk_err] properties. *)
Definition slope (p : PowerSpectrum) : exn + ndval := read_attr (_slope p).
Definition slope_err (p : PowerSpectrum) : exn + ndval :=
  read_attr (_slope_err p).
Definition brk (p : PowerSpectrum) : exn + option R := read_attr (_brk p).
Definition brk_err (p : PowerSpectrum) : exn + option R :=
  read_attr (_brk_err p).

(** The attributes of a [PSpec_Distance] object; [pd_distance] is its
    [distance] attribute. *)
Record PSpec_Distance : Type := mkPD {
  pspec1 : PowerSpectrum;
  pspec2 : PowerSpectrum;
  results : option unit;
  pd_distance : option ndval
}.

Definition ebind {A B} (r : exn + A) (k : A -> exn + B) : exn + B :=
  match r with
  | inl e => inl e
  | inr a => k a
  end.

(** The statistic of [distance_metric] (pspec.py, lines 237-240), operands
    evaluated left to right. *)
Definition distance_of (p1 p2 : PowerSpectrum) : exn + ndval :=
  ebind (slope p1) (fun s1 =>
  ebind (slope p2) (fun s2 =>
  ebind (nd_sub s1 s2) (fun num =>
  ebind (slope_err p1) (fun e1 =>
  ebind (slope_err p2) (fun e2 =>
  ebind (nd_add (nd_square e1) (nd_square e2)) (fun ss =>
  ebind (nd_div num (nd_sqrt ss)) (fun q =>
  inr (nd_abs q)))))))).

(** [distance_metric] with [verbose=False]. *)
Definition distance_metric : method PSpec_Distance unit :=
  fun self =>
    (d <- mlift (distance_of (pspec1 self) (pspec2 self)) ;;
     modify (fun s => mkPD (pspec1 s) (pspec2 s) (results s) (Some d))) self.

(** The spec's formula for the distance,
    |slope1 - slope2| / sqrt(slope_err1^2 + slope_err2^2). *)
Definition spec_distance (s1 s2 e1 e2 : R) : R :=
  Rabs (s1 - s2) / sqrt (e1 ^ 2 + e2 ^ 2).

(** The same formula on numpy operands, element by element. *)
Definition spec_distance_nd (s1 s2 e1 e2 : ndval) : exn + ndval :=
  ebind (nd_sub s1 s2) (fun num =>
  ebind (nd_add (nd_square e1) (nd_square e2)) (fun ss =>
  nd_div (nd_abs num) (nd_sqrt ss))).





Close Scope method_scope.

End Pipeline.

End PSpec.

(** ** The claims of the specification, as predicates *)

Module Claims.

(** Consecutive samples are equally far apart. *)
Definition uniform (ax : list R) : Prop :=
  exists step, forall i, (S i < length ax)%nat ->
    nth (S i) ax 0 - nth i ax 0 = step.

Definition ascending (ax : list R) : Prop :=
  forall i, (S i < length ax)%nat -> nth i ax 0 < nth (S i) ax 0.

Definition descending (ax : list R) : Prop :=
  forall i, (S i < length ax)%nat -> nth (S i) ax 0 < nth i ax 0.

(** The end points of [ax] are [lo] and [hi], and [ax] runs in the direction
    of the input axis, whose first step is [current_resolution]. *)
Definition endpoints_and_direction (lo hi current_resolution : R)
  (ax : list R) : Prop :=
  (0 < current_resolution ->
     hd_error ax = Some lo /\ hd_error (rev ax) = Some hi /\ ascending ax) /\
  (current_resolution < 0 ->
     hd_error ax = Some hi /\ hd_error (rev ax) = Some lo /\ descending ax).

(** The regridded axis as the specification describes it: a uniform grid of
    [floor(count / ratio)] samples from the minimum to the maximum of the
    original axis, in the original direction. *)
Definition regrid_axis_claim (original : list R) (ratio : R) (ax : list R)
  : Prop :=
  exists lo hi c,
    Np.amin original = inr lo /\ Np.amax original = inr hi /\
    Np.diff_first2 original = inr c /\
    Z.of_nat (length ax) = Int_part (INR (length original) / ratio) /\
    uniform ax /\
    endpoints_and_direction lo hi c ax.

End Claims.

(** ** Small library instances, to evaluate the model on concrete inputs *)

Module Examples.

Inductive ex_unit : Type := pix | m_s | km_s.

Definition ex_factor (u v : ex_unit) : option R :=
  match u, v with
  | pix, pix | m_s, m_s | km_s, km_s => Some 1
  | km_s, m_s => Some 1000
  | m_s, km_s => Some (1 / 1000)
  | _, _ => None
  end.

(** Cubes without data: smoothing changes nothing of the axis, interpolation
    installs the new axis, downsampling keeps every [n]-th axis value. *)
Fixpoint every_nth (n k : nat) (l : list R) : list R :=
  match l with
  | [] => []
  | x :: l' =>
      match k with
      | O => x :: every_nth n (n - 1) l'
      | S k' => every_nth n k' l'
      end
  end.

Definition ex_cube_lib : SliceThickness.SpectralCubeLib :=
  {| SliceThickness.Unit := ex_unit;
     SliceThickness.is_equivalent_pix :=
       fun u => match u with pix => true | _ => false end;
     SliceThickness.unit_factor := ex_factor;
     SliceThickness.CubeData := unit;
     SliceThickness.spectral_smooth := fun c _ => c;
     SliceThickness.spectral_interpolate :=
       fun c ax => inr (ax, snd (fst c), snd c);
     SliceThickness.downsample_axis :=
       fun c n =>
         if (n <=? 0)%Z then inl ValueError
         else inr (every_nth (Z.to_nat n) 0 (fst (fst c)), snd (fst c), snd c)
  |}.

(** A cube of four channels, 1 m/s apart, and one of three channels. *)
Definition cube4 : SliceThickness.Cube (L := ex_cube_lib) :=
  ([0; 1; 2; 3], m_s, tt).
Definition cube3 : SliceThickness.Cube (L := ex_cube_lib) :=
  ([0; 1; 2], m_s, tt).

(** Stand-ins for the collaborators of the power-spectrum pipeline: the
    discrete Fourier transform, a simple linear regression for OLS, a strict
    clip, a fixed radial profile, and a segmented fit that settles on the
    guess it is given. *)
Definition sum_R (l : list R) : R := fold_right Rplus 0 l.

Definition dft2_entry (a : list (list R)) (k l : nat) : PSpec.C :=
  let M := length a in
  let N := length (hd [] a) in
  let term (m n : nat) (v : R) : PSpec.C :=
    let theta := 2 * PI * (INR k * INR m / INR M + INR l * INR n / INR N) in
    (v * cos theta, - (v * sin theta)) in
  let row_terms (m : nat) (row : list R) : list PSpec.C :=
    map (fun nv => term m (fst nv) (snd nv)) (combine (seq 0 (length row)) row) in
  let terms := flat_map (fun mr => row_terms (fst mr) (snd mr))
                        (combine (seq 0 M) a) in
  (sum_R (map fst terms), sum_R (map snd terms)).

Definition dft2 (a : list (list R)) : list (list PSpec.C) :=
  map (fun k => map (fun l => dft2_entry a k l) (seq 0 (length (hd [] a))))
      (seq 0 (length a)).

Definition simple_ols (x y : list R) : exn + PSpec.OLSResults :=
  let n := INR (length x) in
  let xm := sum_R x / n in
  let ym := sum_R y / n in
  let sxx := sum_R (map (fun xi => (xi - xm) ^ 2) x) in
  let sxy := sum_R (Np.zip_with (fun xi yi => (xi - xm) * (yi - ym)) x y) in
  let b := sxy / sxx in
  let a := ym - b * xm in
  let rss := sum_R (Np.zip_with (fun xi yi => (yi - a - b * xi) ^ 2) x y) in
  let s2 := rss / (n - 2) in
  if (length x =? length y)%nat then
    inr (PSpec.mkOLS [a; b]
           [sqrt (s2 * (1 / n + xm ^ 2 / sxx)); sqrt (s2 / sxx)])
  else inl ValueError.

Definition ex_pspec_lib : PSpec.PSpecLib :=
  {| PSpec.Quantity := R;
     PSpec.quantity_value := fun q => q;
     PSpec.is_dimensionless := fun _ => true;
     PSpec.Header := list R;
     PSpec.header_cdelt := fun h => h;
     PSpec.Beam := unit;
     PSpec.beam_as_kernel := fun _ _ ny nx => repeat (repeat 1 nx) ny;
     PSpec.apodizing_kernel := fun sh _ => repeat (repeat 1 (snd sh)) (fst sh);
     PSpec.fft2 := dft2;
     PSpec.pspec := fun _ return_stddev _ _ =>
       inr ([1 / 10; 2 / 10; 5 / 10], [100; 10; 1],
            if return_stddev then Some [1; 1; 1] else None);
     PSpec.clip_func := fun arr lo hi =>
       map (fun v => andb (Np.ltb lo v) (Np.ltb v hi)) arr;
     PSpec.to_pixel_freq := fun _ _ q =>
       match q with
       | PSpec.PyQuantity v => inr v
       | PSpec.PyFloat _ => inl TypeError
       end;
     PSpec.SegFit := unit;
     PSpec.Lm_Seg_fit_model := fun _ _ b _ =>
       inr (PSpec.mkLm_Seg 5 b (1 / 10) [-1; -3] [1 / 10; 1 / 10] tt);
     PSpec.OLS_fit := simple_ols
  |}.

(** A 2 x 2 image with one NaN pixel, no header, weights or beam. *)
Definition ex_image : list (list (option R)) :=
  [[Some 1; Some 2]; [Some 3; None]].
Definition ex_ps : PSpec.PowerSpectrum (L := ex_pspec_lib) :=
  PSpec.init (L := ex_pspec_lib) ex_image None None None None.

(** A pipeline whose radial profile has three points. *)
Definition ex_binned : PSpec.PowerSpectrum (L := ex_pspec_lib) :=
  PSpec.mkPS (L := ex_pspec_lib)
    [[1; 2]; [3; 0]] [[1; 2]; [3; 0]] None None None None
    (Some [[1; 4]; [9; 0]]) (Some [1 / 10; 2 / 10; 5 / 10])
    (Some [100; 10; 1]) (Some None) (Some false)
    None None None None None None None.

(** Two fitted pipelines: slopes -3 and -2.5, errors 0.1 and 0.2. *)
Definition ex_fitted_a : PSpec.PowerSpectrum (L := ex_pspec_lib) :=
  PSpec.set_slope_err (NdVal.Scalar (1 / 10))
    (PSpec.set_slope (NdVal.Scalar (-3)) ex_binned).
Definition ex_fitted_b : PSpec.PowerSpectrum (L := ex_pspec_lib) :=
  PSpec.set_slope_err (NdVal.Scalar (2 / 10))
    (PSpec.set_slope (NdVal.Scalar (-5 / 2)) ex_binned).

End Examples.

(** ** Properties of the numpy helpers *)

Module NpFacts.

Lemma Int_part_nonneg (r : R) : 0 <= r -> (0 <= Int_part r)%Z.
Proof.
  intros Hr.
  destruct (base_Int_part r) as [_ Hlo].
  assert (H : -1 < IZR (Int_part r)) by lra.
  apply lt_IZR in H. lia.
Qed.

Lemma linspace_samples_length (lo hi : R) (n : nat) :
  length (Np.linspace_samples lo hi n) = n.
Proof.
  unfold Np.linspace_samples. now rewrite length_map, length_seq.
Qed.

(** With at least two samples, the [i]-th one is [lo + i * step]. *)
Lemma linspace_samples_nth (lo hi : R) (n i : nat) :
  (2 <= n)%nat -> (i < n)%nat ->
  nth i (Np.linspace_samples lo hi n) 0 =
  lo + INR i * ((hi - lo) / INR (n - 1)).
Proof.
  intros Hn Hi. unfold Np.linspace_samples.
  set (f := fun k : nat => if (n - 1 =? 0)%nat
      then lo + INR k * (hi - lo)
      else lo + INR k * ((hi - lo) / INR (n - 1))).
  rewrite (nth_indep _ 0 (f 0%nat)) by now rewrite length_map, length_seq.
  rewrite map_nth, seq_nth by lia. subst f. simpl.
  destruct (n - 1 =? 0)%nat eqn:E; [apply Nat.eqb_eq in E; lia | reflexivity].
Qed.

Lemma fold_left_Rmin_le (xs : list R) (x : R) :
  fold_left Rmin xs x <= x /\ forall y, In y xs -> fold_left Rmin xs x <= y.
Proof.
  revert x. induction xs as [|a xs IH]; intros x; simpl.
  - split; [lra | tauto].
  - destruct (IH (Rmin x a)) as [H1 H2]. split.
    + pose proof (Rmin_l x a). lra.
    + intros y [<- | Hy]; [pose proof (Rmin_r x a); lra | auto].
Qed.

Lemma fold_left_Rmax_ge (xs : list R) (x : R) :
  x <= fold_left Rmax xs x /\ forall y, In y xs -> y <= fold_left Rmax xs x.
Proof.
  revert x. induction xs as [|a xs IH]; intros x; simpl.
  - split; [lra | tauto].
  - destruct (IH (Rmax x a)) as [H1 H2]. split.
    + pose proof (Rmax_l x a). lra.
    + intros y [<- | Hy]; [pose proof (Rmax_r x a); lra | auto].
Qed.

(** An axis whose first two values differ has its minimum below its maximum. *)
Lemma amin_lt_amax (a0 a1 : R) (rest : list R) :
  a1 - a0 <> 0 ->
  exists lo hi, Np.amin (a0 :: a1 :: rest) = inr lo /\
                Np.amax (a0 :: a1 :: rest) = inr hi /\ lo < hi.
Proof.
  intros Hc. simpl. do 2 eexists. split; [reflexivity | split; [reflexivity |]].
  destruct (fold_left_Rmin_le (a1 :: rest) a0) as [Hm0 Hm].
  destruct (fold_left_Rmax_ge (a1 :: rest) a0) as [HM0 HM].
  specialize (Hm a1 (or_introl eq_refl)).
  specialize (HM a1 (or_introl eq_refl)).
  simpl in *.
  destruct (Rtotal_order a0 a1) as [H | [H | H]]; lra.
Qed.

End NpFacts.

(** ** Spectral regridding: validation and the new axis *)

Module RegridFacts.

Import SliceThickness Claims NpFacts.

Lemma hd_error_nth (l : list R) :
  (0 < length l)%nat -> hd_error l = Some (nth 0 l 0).
Proof. destruct l; simpl; [lia | reflexivity]. Qed.

Lemma hd_error_rev_nth (l : list R) :
  (0 < length l)%nat -> hd_error (rev l) = Some (nth (length l - 1) l 0).
Proof.
  intros H. rewrite hd_error_nth by now rewrite length_rev.
  rewrite rev_nth by lia. reflexivity.
Qed.

Section Linspace.
Variables (lo hi : R) (n : nat).
Hypothesis Hn : (2 <= n)%nat.

Let ax := Np.linspace_samples lo hi n.
Let step := (hi - lo) / INR (n - 1).

Lemma INR_pred_pos : 0 < INR (n - 1).
Proof. apply lt_0_INR. lia. Qed.

Lemma linspace_step (i : nat) :
  (S i < n)%nat -> nth (S i) ax 0 - nth i ax 0 = step.
Proof.
  intros Hi. unfold ax. rewrite !linspace_samples_nth by lia.
  rewrite S_INR. unfold step. ring.
Qed.

Lemma linspace_first : hd_error ax = Some lo.
Proof.
  rewrite hd_error_nth by (unfold ax; rewrite linspace_samples_length; lia).
  unfold ax. rewrite linspace_samples_nth by lia.
  change (INR 0) with 0. f_equal. ring.
Qed.

Lemma linspace_last : hd_error (rev ax) = Some hi.
Proof.
  rewrite hd_error_rev_nth by (unfold ax; rewrite linspace_samples_length; lia).
  unfold ax. rewrite linspace_samples_length.
  rewrite linspace_samples_nth by lia. f_equal.
  pose proof INR_pred_pos. field. lra.
Qed.

Lemma linspace_ascending : lo < hi -> ascending ax.
Proof.
  intros Hlt i Hi.
  assert (Hi' : (S i < n)%nat)
    by (unfold ax in Hi; now rewrite linspace_samples_length in Hi).
  pose proof (linspace_step i Hi') as Hs.
  assert (0 < step).
  { unfold step. apply Rdiv_lt_0_compat; [lra | apply INR_pred_pos]. }
  lra.
Qed.

Lemma rev_linspace_step (i : nat) :
  (S i < n)%nat -> nth (S i) (rev ax) 0 - nth i (rev ax) 0 = - step.
Proof.
  intros Hi.
  assert (Hlen : length ax = n) by apply linspace_samples_length.
  rewrite !rev_nth by lia. rewrite Hlen.
  replace (n - S i)%nat with (S (n - S (S i))) by lia.
  pose proof (linspace_step (n - S (S i))) as Hs.
  rewrite <- Hs by lia. ring.
Qed.

Lemma rev_linspace_descending : lo < hi -> descending (rev ax).
Proof.
  intros Hlt i Hi.
  assert (Hi' : (S i < n)%nat)
    by (unfold ax in Hi; now rewrite length_rev, linspace_samples_length in Hi).
  pose proof (rev_linspace_step i Hi') as Hs.
  assert (0 < step).
  { unfold step. apply Rdiv_lt_0_compat; [lra | apply INR_pred_pos]. }
  lra.
Qed.

End Linspace.

(** Any number of samples gives a uniform grid, in either order. *)
Lemma linspace_uniform (lo hi : R) (n : nat) :
  uniform (Np.linspace_samples lo hi n).
Proof.
  exists ((hi - lo) / INR (n - 1)). intros i Hi.
  rewrite linspace_samples_length in Hi. apply linspace_step; lia.
Qed.

Lemma rev_linspace_uniform (lo hi : R) (n : nat) :
  uniform (rev (Np.linspace_samples lo hi n)).
Proof.
  exists (- ((hi - lo) / INR (n - 1))). intros i Hi.
  rewrite length_rev, linspace_samples_length in Hi.
  apply rev_linspace_step; lia.
Qed.

Lemma Rabs_ratio (t c : R) : Rabs (t / c) = Rabs t / Rabs c.
Proof. unfold Rdiv. now rewrite Rabs_mult, Rabs_inv. Qed.

Lemma ratio_lt_1 (t c : R) :
  c <> 0 -> (Rabs (t / c) < 1 <-> Rabs t < Rabs c).
Proof.
  intros Hc. rewrite Rabs_ratio.
  pose proof (Rabs_pos_lt c Hc) as Hp.
  split; intros H.
  - apply (Rmult_lt_compat_r (Rabs c)) in H; [|assumption].
    unfold Rdiv in H. rewrite Rmult_assoc, Rinv_l in H; lra.
  - apply (Rmult_lt_reg_r (Rabs c)); [assumption|].
    unfold Rdiv. rewrite Rmult_assoc, Rinv_l; lra.
Qed.

Lemma ratio_eq_1 (t c : R) :
  c <> 0 -> (Rabs (t / c) = 1 <-> Rabs t = Rabs c).
Proof.
  intros Hc. rewrite Rabs_ratio.
  pose proof (Rabs_pos_lt c Hc) as Hp.
  split; intros H.
  - apply (f_equal (fun z => z * Rabs c)) in H.
    unfold Rdiv in H. rewrite Rmult_assoc, Rinv_l in H; lra.
  - rewrite H. field. lra.
Qed.

Lemma bind_lift_ok {A B} (a : A) (k : A -> outcome B) :
  bind (lift (inr a)) k = k a.
Proof. unfold bind, lift. simpl. now destruct (k a). Qed.

Lemma bind_lift_err {A B} (e : exn) (k : A -> outcome B) :
  bind (lift (inl e)) k = raise e.
Proof. reflexivity. Qed.

Section Regrid.
Context {L : SpectralCubeLib}.

(** The regrid branch, once the first two axis values and the target
    resolution are known. *)
Lemma regrid_unfold (cube : Cube) (v : R) (u : Unit) (a0 a1 : R)
  (rest : list R) (t : R) :
  spectral_axis cube = a0 :: a1 :: rest ->
  target_resolution v u cube (a1 - a0) = inr t ->
  spectral_regrid_cube (CubeObj cube) (WQuantity v u) "regrid" =
  if Req_dec_T (Rabs (t / (a1 - a0))) 1 then
    Outcome [equal_width_msg] (inr cube)
  else if Rlt_dec (Rabs (t / (a1 - a0))) 1 then raise ValueError
  else
    bind (lift (new_specaxis cube (Rabs (t / (a1 - a0))) (a1 - a0)))
         (fun ax => lift (spectral_interpolate
                            (spectral_smooth cube (gaussian_width t (a1 - a0)))
                            ax)).
Proof.
  intros Hax Ht. unfold spectral_regrid_cube.
  change (existsb (String.eqb "regrid") ["regrid"; "downsample"]%string)
    with true.
  change (String.eqb "regrid" "downsample") with false.
  cbv beta iota delta [negb].
  rewrite Hax. unfold Np.diff_first2.
  rewrite !bind_lift_ok, Ht, bind_lift_ok.
  destruct (Req_dec_T (Rabs (t / (a1 - a0))) 1); [reflexivity|].
  destruct (Rlt_dec (Rabs (t / (a1 - a0))) 1); reflexivity.
Qed.

(** With a coarser target the new axis is defined: the samples of
    [linspace] between the extremes of the original axis, reversed for a
    descending axis. *)
Lemma new_specaxis_ok (cube : Cube) (a0 a1 : R) (rest : list R) (d : R) :
  spectral_axis cube = a0 :: a1 :: rest ->
  a1 - a0 <> 0 -> 1 < d ->
  exists lo hi n,
    Np.amin (spectral_axis cube) = inr lo /\
    Np.amax (spectral_axis cube) = inr hi /\
    lo < hi /\
    Z.of_nat n = Int_part (INR (shape0 cube) / d) /\
    new_specaxis cube d (a1 - a0) =
    inr (if Rlt_dec (a1 - a0) 0 then rev (Np.linspace_samples lo hi n)
         else Np.linspace_samples lo hi n).
Proof.
  intros Hax Hc Hd.
  destruct (amin_lt_amax a0 a1 rest Hc) as (lo & hi & Hlo & Hhi & Hlt).
  assert (Hnn : (0 <= Int_part (INR (shape0 cube) / d))%Z).
  { apply Int_part_nonneg. apply Rmult_le_pos; [apply pos_INR|].
    apply Rlt_le, Rinv_0_lt_compat. lra. }
  exists lo, hi, (Z.to_nat (Int_part (INR (shape0 cube) / d))).
  rewrite Hax. repeat split; try assumption.
  - now rewrite Z2Nat.id.
  - unfold new_specaxis, Np.floor_divide. rewrite Hax, Hlo, Hhi.
    unfold Np.linspace.
    destruct (Int_part (INR (shape0 cube) / d) <? 0)%Z eqn:E;
      [apply Z.ltb_lt in E; lia | reflexivity].
Qed.

End Regrid.

End RegridFacts.

Module RegridClaims.

Import SliceThickness Claims NpFacts RegridFacts Examples.

(** C6.  In the regrid branch of [spectral_regrid_cube], with the channel
    width of the cube taken from its first two axis values: a target
    strictly narrower than the channel width raises ValueError, with nothing
    smoothed or interpolated; a target equal to it emits the warning and
    returns the cube it was given; a strictly coarser target, and only that,
    goes on to smooth the cube and to interpolate it on the new axis. *)
Theorem regrid_validation {L : SpectralCubeLib} (cube : Cube) (v : R)
  (u : Unit) (a0 a1 : R) (rest : list R) (t : R) :
  spectral_axis cube = a0 :: a1 :: rest ->
  a1 - a0 <> 0 ->
  target_resolution v u cube (a1 - a0) = inr t ->
  let r := spectral_regrid_cube (CubeObj cube) (WQuantity v u) "regrid" in
  (Rabs t < Rabs (a1 - a0) -> r = raise ValueError) /\
  (Rabs t = Rabs (a1 - a0) -> r = Outcome [equal_width_msg] (inr cube)) /\
  (Rabs (a1 - a0) < Rabs t ->
     exists ax,
       new_specaxis cube (Rabs (t / (a1 - a0))) (a1 - a0) = inr ax /\
       r = lift (spectral_interpolate
                   (spectral_smooth cube (gaussian_width t (a1 - a0))) ax)).
Proof.
  intros Hax Hc Ht r. subst r. rewrite (regrid_unfold _ _ _ _ _ _ _ Hax Ht).
  pose proof (ratio_lt_1 t _ Hc) as Hlt.
  pose proof (ratio_eq_1 t _ Hc) as Heq.
  repeat split.
  - intros H. apply Hlt in H.
    destruct (Req_dec_T _ 1); [lra|]. destruct (Rlt_dec _ 1); [reflexivity|lra].
  - intros H. apply Heq in H.
    destruct (Req_dec_T _ 1); [reflexivity|contradiction].
  - intros H.
    assert (Hd : 1 < Rabs (t / (a1 - a0))).
    { destruct (Rtotal_order (Rabs (t / (a1 - a0))) 1) as [H1 | [H1 | H1]];
        [apply Hlt in H1; lra | apply Heq in H1; lra | assumption]. }
    destruct (new_specaxis_ok cube a0 a1 rest _ Hax Hc Hd)
      as (lo & hi & n & _ & _ & _ & _ & Hnew).
    eexists. split; [exact Hnew|].
    destruct (Req_dec_T _ 1); [lra|]. destruct (Rlt_dec _ 1); [lra|].
    rewrite Hnew. now rewrite bind_lift_ok.
Qed.

(** A half-channel target on a cube of four channels is refused. *)
Lemma regrid_validation_witness :
  spectral_regrid_cube (L := ex_cube_lib)
    (CubeObj cube4) (WQuantity (L := ex_cube_lib) (1 / 2) pix) "regrid" = raise ValueError.
Proof.
  refine (proj1 (regrid_validation (L := ex_cube_lib) cube4 (1 / 2) pix
                   0 1 [2; 3] (1 / 2 * (1 - 0)) eq_refl _ eq_refl) _).
  - lra.
  - rewrite !Rabs_right; lra.
Defined.

(** C7 (as amended).  A regrid call with a strictly coarser target
    interpolates on an axis of exactly floor(count / ratio) samples, ratio
    being the absolute ratio of target and current channel width; the axis is
    a uniform grid; and when it has at least two samples its end points are
    the minimum and the maximum of the original axis and it runs in the
    direction of the original axis. *)
Theorem regrid_axis {L : SpectralCubeLib} (cube : Cube) (v : R)
  (u : Unit) (a0 a1 : R) (rest : list R) (t : R) :
  spectral_axis cube = a0 :: a1 :: rest ->
  a1 - a0 <> 0 ->
  target_resolution v u cube (a1 - a0) = inr t ->
  Rabs (a1 - a0) < Rabs t ->
  let ratio := Rabs (t / (a1 - a0)) in
  exists ax,
    spectral_regrid_cube (CubeObj cube) (WQuantity v u) "regrid" =
    lift (spectral_interpolate
            (spectral_smooth cube (gaussian_width t (a1 - a0))) ax) /\
    Z.of_nat (length ax) = Int_part (INR (shape0 cube) / ratio) /\
    uniform ax /\
    ((2 <= length ax)%nat -> regrid_axis_claim (spectral_axis cube) ratio ax).
Proof.
  intros Hax Hc Ht Hcoarse ratio. subst ratio.
  pose proof (ratio_lt_1 t _ Hc) as Hlt.
  pose proof (ratio_eq_1 t _ Hc) as Heq.
  remember (Rabs (t / (a1 - a0))) as ratio eqn:Eratio.
  assert (Hd : 1 < ratio).
  { destruct (Rtotal_order ratio 1) as [H1 | [H1 | H1]];
      [apply Hlt in H1; lra | apply Heq in H1; lra | assumption]. }
  destruct (new_specaxis_ok cube a0 a1 rest _ Hax Hc Hd)
    as (lo & hi & n & Hlo & Hhi & Hlohi & Hn & Hnew).
  exists (if Rlt_dec (a1 - a0) 0 then rev (Np.linspace_samples lo hi n)
          else Np.linspace_samples lo hi n).
  split; [|split; [|split]].
  - rewrite (regrid_unfold _ _ _ _ _ _ _ Hax Ht). rewrite <- Eratio.
    destruct (Req_dec_T ratio 1); [lra|]. destruct (Rlt_dec ratio 1); [lra|].
    rewrite Hnew. now rewrite bind_lift_ok.
  - destruct (Rlt_dec (a1 - a0) 0);
      rewrite ?length_rev, linspace_samples_length; exact Hn.
  - destruct (Rlt_dec (a1 - a0) 0);
      [apply rev_linspace_uniform | apply linspace_uniform].
  - intros Hlen. exists lo, hi, (a1 - a0).
    assert (Hn2 : (2 <= n)%nat).
    { destruct (Rlt_dec (a1 - a0) 0);
        rewrite ?length_rev, linspace_samples_length in Hlen; exact Hlen. }
    split; [exact Hlo|]. split; [exact Hhi|].
    split; [now rewrite Hax|].
    split.
    { unfold shape0 in Hn.
      destruct (Rlt_dec (a1 - a0) 0);
        rewrite ?length_rev, linspace_samples_length; exact Hn. }
    split.
    { destruct (Rlt_dec (a1 - a0) 0);
        [apply rev_linspace_uniform | apply linspace_uniform]. }
    split; intros Hdir; (destruct (Rlt_dec (a1 - a0) 0); [|]); try lra.
    + repeat split;
        [apply linspace_first | apply linspace_last
        | apply linspace_ascending]; assumption.
    + rewrite rev_involutive. repeat split;
        [apply linspace_last | apply linspace_first
        | apply rev_linspace_descending]; assumption.
Qed.

(** Doubling the channel width of [cube4] gives two samples, 0 and 3. *)
Lemma regrid_axis_witness :
  exists ax,
    spectral_regrid_cube (L := ex_cube_lib)
      (CubeObj cube4) (WQuantity (L := ex_cube_lib) 2 pix) "regrid" =
    lift (spectral_interpolate
            (spectral_smooth cube4 (gaussian_width (2 * (1 - 0)) (1 - 0))) ax) /\
    Z.of_nat (length ax) =
      Int_part (INR (shape0 cube4) / Rabs (2 * (1 - 0) / (1 - 0))) /\
    uniform ax /\
    ((2 <= length ax)%nat ->
     regrid_axis_claim (spectral_axis cube4)
       (Rabs (2 * (1 - 0) / (1 - 0))) ax).
Proof.
  refine (regrid_axis (L := ex_cube_lib) cube4 2 pix 0 1 [2; 3]
            (2 * (1 - 0)) eq_refl _ eq_refl _).
  - lra.
  - rewrite !Rabs_right; lra.
Defined.

(** C7, as stated, fails: doubling the channel width of a cube of three
    channels (0, 1, 2) interpolates on the single sample 0, whose last point
    is not the maximum 2 of the original axis. *)
Lemma regrid_axis_counterexample :
  spectral_regrid_cube (L := ex_cube_lib)
    (CubeObj cube3) (WQuantity (L := ex_cube_lib) 2 pix) "regrid" = ret ([0], m_s, tt) /\
  ~ regrid_axis_claim (spectral_axis cube3)
      (Rabs (2 * (1 - 0) / (1 - 0))) [0].
Proof.
  assert (Hr : Rabs (2 * (1 - 0) / (1 - 0)) = 2).
  { replace (2 * (1 - 0) / (1 - 0)) with 2 by field. apply Rabs_right. lra. }
  split.
  - rewrite (regrid_unfold (L := ex_cube_lib) cube3 2 pix 0 1 [2]
               (2 * (1 - 0)) eq_refl eq_refl).
    rewrite Hr.
    destruct (Req_dec_T 2 1); [lra|]. destruct (Rlt_dec 2 1); [lra|].
    unfold new_specaxis, Np.floor_divide.
    replace (Int_part (INR (shape0 cube3) / 2)) with 1%Z.
    2:{ apply Int_part_spec. unfold shape0, cube3. simpl. lra. }
    unfold cube3 at 1 2. simpl.
    destruct (Rlt_dec (1 - 0) 0); [lra|].
    rewrite bind_lift_ok. simpl. unfold ret, lift. do 4 f_equal.
    unfold Rmin. repeat (destruct (Rle_dec _ _); try lra).
    change (Pos.to_nat 1) with 1%nat. unfold Np.linspace_samples.
    cbn [seq map Nat.sub Nat.eqb INR]. f_equal. ring.
  - intros (lo & hi & c & Hlo & Hhi & Hc & _ & _ & Hend).
    simpl in Hlo, Hhi, Hc.
    injection Hlo as <-. injection Hhi as <-. injection Hc as <-.
    destruct Hend as [Hasc _].
    destruct Hasc as (_ & Hlast & _); [lra|].
    simpl in Hlast. injection Hlast as Hlast.
    revert Hlast. unfold Rmax. repeat (destruct (Rle_dec _ _); try lra).
Qed.

End RegridClaims.

(** ** The power-spectrum pipeline *)

Module PSpecFacts.

Import NdVal PSpec.

Section MethodLaws.
Context {S A B : Type}.
Variables (k : A -> method S B) (s : S).

Lemma mbind_pure_ok (m : method S A) (a : A) :
  m s = (lift (inr a), s) -> mbind m k s = k a s.
Proof.
  intros H. unfold mbind. rewrite H. simpl.
  now destruct (k a s) as [[w v] s2].
Qed.

Lemma mbind_pure_err (m : method S A) (e : exn) :
  m s = (lift (inl e), s) -> mbind m k s = (raise e, s).
Proof. intros H. unfold mbind. now rewrite H. Qed.

Lemma mbind_mlift_ok (a : A) : mbind (mlift (inr a)) k s = k a s.
Proof. now apply mbind_pure_ok. Qed.

Lemma mbind_mlift_err (e : exn) : mbind (mlift (inl e)) k s = (raise e, s).
Proof. now apply mbind_pure_err. Qed.

Lemma mbind_mret (a : A) : mbind (mret a) k s = k a s.
Proof. now apply mbind_pure_ok. Qed.

Lemma mbind_get (proj : S -> attr A) (v : A) :
  proj s = Some v -> mbind (get proj) k s = k v s.
Proof. intros H. apply mbind_pure_ok. unfold get. now rewrite H. Qed.

Lemma mbind_get_unset (proj : S -> attr A) :
  proj s = None -> mbind (get proj) k s = (raise AttributeError, s).
Proof. intros H. apply mbind_pure_err. unfold get. now rewrite H. Qed.

End MethodLaws.

Lemma mbind_modify {S B} (f : S -> S) (k : unit -> method S B) (s : S) :
  mbind (modify f) k s = k tt (f s).
Proof. unfold mbind, modify. simpl. now destruct (k tt (f s)) as [[w v] s2]. Qed.

Lemma mbind_mwarn {S B} (msg : string) (k : unit -> method S B) (s : S) :
  mbind (mwarn msg) k s =
  (Outcome (msg :: warnings (fst (k tt s))) (value (fst (k tt s))),
   snd (k tt s)).
Proof. unfold mbind, mwarn. simpl. now destruct (k tt s) as [[w v] s2]. Qed.

Lemma mbind_assoc {S A B D} (m : method S A) (k : A -> method S B)
  (h : B -> method S D) (s : S) :
  mbind (mbind m k) h s = mbind m (fun a => mbind (k a) h) s.
Proof.
  unfold mbind. destruct (m s) as [[w [e | a]] s1]; simpl; [reflexivity|].
  destruct (k a s1) as [[w2 [e | b]] s2]; simpl; [reflexivity|].
  destruct (h b s2) as [[w3 v3] s3]; simpl. now rewrite app_assoc.
Qed.

(** Reading an attribute that the state at hand visibly holds. *)
Ltac step_get :=
  match goal with
  | |- context [mbind (get ?proj) ?k ?s] =>
      rewrite (mbind_get k s proj _ eq_refl)
  end.

Section Pipeline.
Context {L : PSpecLib}.

(** *** compute_pspec *)

Lemma compute_pspec_no_beam (p : PowerSpectrum) (ap : bool) (alpha : R) :
  _beam p = None ->
  forall bc, compute_pspec bc ap alpha p =
    (ret tt,
     set_ps2D (power2
       (if ap then
          Np.fftshift (rfft_to_fft
            (Np.zip_with2d Rmult (weighted_data p)
               (apodizing_kernel (shape2d (data p)) alpha)))
        else Np.fftshift (rfft_to_fft (weighted_data p)))) p).
Proof.
  intros Hb bc. unfold compute_pspec. rewrite Hb.
  destruct bc; reflexivity.
Qed.

(** [compute_pspec] assigns [_ps2D] and nothing else. *)
Lemma compute_pspec_frame (p : PowerSpectrum) (bc ap : bool) (alpha : R) :
  let p' := snd (compute_pspec bc ap alpha p) in
  _ps1D_stddev p' = _ps1D_stddev p /\ _beam p' = _beam p /\
  _stddev_flag p' = _stddev_flag p.
Proof.
  unfold compute_pspec.
  destruct (if bc then _beam p else None) as [b|]; [|now simpl].
  destruct (_wcs p) as [[|c l]|] eqn:E.
  - rewrite (mbind_get _ _ _ _ E), mbind_mlift_err. now simpl.
  - rewrite (mbind_get _ _ _ _ E), mbind_mlift_ok. now simpl.
  - rewrite (mbind_get_unset _ _ _ E). now simpl.
Qed.

(** *** compute_radial_pspec and the ps1D_stddev property *)

(** A call without standard deviations that returns leaves the flag at
    [False] and [_ps1D_stddev] as it was. *)
Lemma compute_radial_pspec_no_stddev (p p' : PowerSpectrum)
  (logspacing : bool) (max_bin : option R) (w : list string) :
  compute_radial_pspec false logspacing max_bin p = (Outcome w (inr tt), p') ->
  _stddev_flag p' = Some false /\ _ps1D_stddev p' = _ps1D_stddev p.
Proof.
  unfold compute_radial_pspec. rewrite !mbind_assoc.
  destruct (_ps2D p) as [a|] eqn:E2.
  2:{ rewrite (mbind_get_unset _ _ _ E2). discriminate. }
  rewrite (mbind_get _ _ _ _ E2). rewrite !mbind_assoc.
  destruct (pspec a false None max_bin) as [e | [[f p1] [sd|]]].
  - rewrite mbind_mlift_err. discriminate.
  - rewrite mbind_mlift_ok. rewrite !mbind_assoc. discriminate.
  - rewrite mbind_mlift_ok. rewrite !mbind_assoc, !mbind_modify.
    step_get.
    unfold modify. intros H. injection H as _ <-. now simpl.
Qed.

Lemma ps1D_stddev_none (p : PowerSpectrum) (flag : bool) :
  _stddev_flag p = Some flag -> _ps1D_stddev p = Some None ->
  ps1D_stddev p = (ret None, p).
Proof.
  intros Hf Hs. unfold ps1D_stddev.
  rewrite (mbind_get _ _ _ _ Hf).
  destruct flag; simpl; rewrite mbind_mret; unfold get; now rewrite Hs.
Qed.

End Pipeline.

End PSpecFacts.

(** ** The 2D power spectrum as a squared magnitude *)

Module SpectrumFacts.

Import PSpec PSpecFacts.



Section ZipMap.
Context {A B C D : Type}.
Variables (f : B -> B -> C) (g : A -> B) (h : C -> D) (f' : A -> A -> D).
Hypothesis Hpoint : forall x y, h (f (g x) (g y)) = f' x y.

Lemma zip_with_map (a b : list A) :
  map h (Np.zip_with f (map g a) (map g b)) = Np.zip_with f' a b.
Proof.
  revert b. induction a as [|x a IH]; intros [|y b]; simpl; try reflexivity.
  now rewrite Hpoint, IH.
Qed.

Lemma zip_with2d_map (a b : list (list A)) :
  Np.map2d h (Np.zip_with2d f (Np.map2d g a) (Np.map2d g b)) =
  Np.zip_with2d f' a b.
Proof.
  unfold Np.map2d, Np.zip_with2d.
  revert b. induction a as [|x a IH]; intros [|y b]; simpl; try reflexivity.
  now rewrite zip_with_map, IH.
Qed.

End ZipMap.





Section Pipeline.
Context {L : PSpecLib}.


End Pipeline.

End SpectrumFacts.

Module SpectrumClaims.

Import PSpec PSpecFacts SpectrumFacts Examples.





(** C10.  On a pipeline fresh from the constructor, after [compute_pspec]
    and a [compute_radial_pspec] with [return_stddev=False] that returned,
    reading [ps1D_stddev] returns None: it raises nothing, emits no warning
    and leaves the object as it is. *)
Theorem ps1D_stddev_without_stddev {L : PSpecLib}
  (img : list (list (option R))) (hdr : option Header)
  (weights : option (list (list (option R))))
  (dist : option Quantity) (beam : option Beam)
  (beam_correct apodize : bool) (alpha : R)
  (logspacing : bool) (max_bin : option R) :
  let p0 := init img hdr weights dist beam in
  let p1 := snd (compute_pspec beam_correct apodize alpha p0) in
  let r := compute_radial_pspec false logspacing max_bin p1 in
  value (fst r) = inr tt ->
  ps1D_stddev (snd r) = (Outcome [] (inr None), snd r).
Proof.
  intros p0 p1 r Hok. subst r.
  destruct (compute_radial_pspec false logspacing max_bin p1)
    as [[w v] p2] eqn:Er.
  simpl in Hok. subst v.
  destruct (compute_radial_pspec_no_stddev _ _ _ _ _ Er) as [Hflag Hsd].
  apply (ps1D_stddev_none _ false Hflag).
  simpl. rewrite Hsd. subst p1.
  destruct (compute_pspec_frame p0 beam_correct apodize alpha) as (-> & _).
  reflexivity.
Qed.

(** The example image, binned without standard deviations. *)
Lemma ps1D_stddev_without_stddev_witness :
  let r := compute_radial_pspec (L := ex_pspec_lib) false false None
             (snd (compute_pspec (L := ex_pspec_lib) true true (3 / 10) ex_ps))
  in
  value (fst r) = inr tt /\
  ps1D_stddev (snd r) = (Outcome [] (inr None), snd r).
Proof.
  split; [reflexivity|].
  apply (ps1D_stddev_without_stddev (L := ex_pspec_lib)
           ex_image None None None None true true (3 / 10) false None).
  reflexivity.
Defined.

End SpectrumClaims.

(** ** fit_pspec, stage by stage *)

Module FitFacts.

Import NdVal PSpec PSpecFacts.


Lemma count_below_bounds (x : list R) (v : R) :
  (0 <= Np.count_below x v <= Z.of_nat (length x))%Z.
Proof.
  unfold Np.count_below. split; [lia|].
  apply Nat2Z.inj_le, filter_length_le.
Qed.

Section Pipeline.
Context {L : PSpecLib}.

(** The state after the fit limits are set, the data handed to the
    regression, and the break guess in log space. *)
Definition limits_state (lc hc : option (pyval Quantity)) (p : PowerSpectrum)
  : PowerSpectrum :=
  snd (set_fit_limits lc hc p).

Definition fit_xy (lc hc : option (pyval Quantity)) (p : PowerSpectrum)
  : exn + (list R * list R) :=
  value (fst (mbind (set_fit_limits lc hc) (fun _ => fit_data) p)).

Definition guess_of (log_break : bool) (b : pyval Quantity)
  (p : PowerSpectrum) : exn + R :=
  value (fst (break_guess log_break b p)).

(** The state a break accepted by [fit_break] leaves. *)
Definition accepted_state (bf : Lm_Seg SegFit) (s : PowerSpectrum)
  : PowerSpectrum :=
  let linear := Rpower 10 (seg_brk bf) in
  set_fit (FitSeg (seg_fit bf))
    (set_slope_err (Arr (slope_errs bf))
       (set_slope (Arr (slopes bf))
          (set_brk_err (Some (ln 10 * linear * seg_brk_err bf))
             (set_brk (Some linear) s)))).

Lemma break_guess_pure (lb : bool) (b : pyval Quantity) (s : PowerSpectrum) :
  break_guess lb b s = (lift (guess_of lb b s), s).
Proof.
  unfold guess_of, break_guess, _to_pixel_freq, mbind, mlift.
  destruct lb; simpl.
  - destruct b as [q | v]; [destruct (is_dimensionless q)|]; reflexivity.
  - destruct (to_pixel_freq (header s) (distance s) b); reflexivity.
Qed.

Lemma fit_data_pure (s : PowerSpectrum) :
  fit_data s = (lift (value (fst (fit_data s))), s).
Proof.
  unfold fit_data, mbind, get, mret.
  destruct (_freqs s), (low_cut s), (high_cut s), (_ps1D s); reflexivity.
Qed.

(** Setting the limits warns of nothing and touches the two limits only. *)
Lemma set_fit_limits_frame (lc hc : option (pyval Quantity))
  (s : PowerSpectrum) :
  let r := set_fit_limits lc hc s in
  warnings (fst r) = [] /\
  header (snd r) = header s /\ distance (snd r) = distance s /\
  _brk_err (snd r) = _brk_err s /\ _slope (snd r) = _slope s /\
  _slope_err (snd r) = _slope_err s /\ fit (snd r) = fit s.
Proof.
  unfold set_fit_limits, _to_pixel_freq, mbind, get, modify, mlift.
  destruct lc as [q|]; simpl.
  - destruct (to_pixel_freq (header s) (distance s) q); simpl;
      [now repeat split|].
    destruct hc as [q'|]; simpl.
    + destruct (to_pixel_freq (header s) (distance s) q'); now repeat split.
    + destruct (_freqs s) as [f|]; simpl; [|now repeat split].
      destruct (Np.amax f); now repeat split.
  - destruct (_ps2D s); simpl; [|now repeat split].
    destruct hc as [q'|]; simpl.
    + destruct (to_pixel_freq (header s) (distance s) q'); now repeat split.
    + destruct (_freqs s) as [f|]; simpl; [|now repeat split].
      destruct (Np.amax f); now repeat split.
Qed.

Lemma guess_of_limits (lb : bool) (b : pyval Quantity)
  (lc hc : option (pyval Quantity)) (p : PowerSpectrum) :
  guess_of lb b (limits_state lc hc p) = guess_of lb b p.
Proof.
  destruct (set_fit_limits_frame lc hc p) as (_ & Hh & Hd & _).
  unfold guess_of, break_guess, _to_pixel_freq, mbind, mlift, limits_state.
  destruct lb; cbn [negb].
  - destruct b as [q | v]; [destruct (is_dimensionless q)|]; reflexivity.
  - rewrite Hh, Hd.
    now destruct (to_pixel_freq (header p) (distance p) b).
Qed.

(** Once the data to fit are known, [fit_pspec] is the break stage followed
    by the no-break stage, from the state with the limits set. *)
Lemma fit_pspec_stages (brk : option (pyval Quantity)) (lb : bool)
  (lc hc : option (pyval Quantity)) (min_fits_pts : Z) (vb : bool)
  (p : PowerSpectrum) (x y : list R) :
  fit_xy lc hc p = inr (x, y) ->
  fit_pspec brk lb lc hc min_fits_pts vb p =
  mbind (fit_break brk lb min_fits_pts vb x y)
        (fun xy' => fit_no_break (fst xy') (snd xy'))
        (limits_state lc hc p).
Proof.
  unfold fit_xy, fit_pspec, limits_state. intros Hxy.
  destruct (set_fit_limits_frame lc hc p) as (Hw & _).
  unfold mbind at 1. unfold mbind at 1 in Hxy.
  destruct (set_fit_limits lc hc p) as [[w [e | []]] p1]; simpl in *.
  - discriminate.
  - subst w. rewrite (fit_data_pure p1) in Hxy. simpl in Hxy.
    assert (Hd : fit_data p1 = (lift (inr (x, y)), p1)).
    { rewrite (fit_data_pure p1).
      destruct (value (fst (fit_data p1))) as [e | xy]; simpl in Hxy;
        [discriminate | now injection Hxy as ->]. }
    rewrite (mbind_pure_ok _ _ _ _ Hd). simpl.
    now destruct (mbind _ _ p1) as [[w v] s2].
Qed.

(** *** The break stage, path by path *)

Section BreakStage.
Variables (lb vb : bool) (min_fits_pts : Z) (x y : list R).
Variable s : PowerSpectrum.

Lemma fit_break_none :
  fit_break None lb min_fits_pts vb x y s =
  (ret (x, y), set_brk_err None (set_brk None s)).
Proof. unfold fit_break. now rewrite !mbind_modify. Qed.

Lemma fit_break_guess_error (b : pyval Quantity) (e : exn) :
  guess_of lb b s = inl e ->
  fit_break (Some b) lb min_fits_pts vb x y s = (raise e, s).
Proof.
  intros Hg.
  assert (Hb : break_guess lb b s = (lift (inl e), s))
    by now rewrite break_guess_pure, Hg.
  unfold fit_break. now rewrite (mbind_pure_err _ _ _ _ Hb).
Qed.

Variables (b : pyval Quantity) (g : R).
Hypothesis Hg : guess_of lb b s = inr g.

Lemma fit_break_after_guess :
  fit_break (Some b) lb min_fits_pts vb x y s =
  mbind (mlift (Lm_Seg_fit_model x y g vb))
    (fun brk_fit =>
       if (params_size brk_fit =? 5)%nat then
         if (Np.count_below x (seg_brk brk_fit) <? min_fits_pts)%Z then
           mbind (mwarn not_enough_points_msg) (fun _ =>
           mbind (modify (set_brk None)) (fun _ => mret (x, y)))
         else
           mbind (modify (set_brk (Some (Rpower 10 (seg_brk brk_fit)))))
             (fun _ =>
           mbind (get _brk) (fun bq =>
           mbind (mlift (read_attr bq)) (fun bv =>
           mbind (modify (set_brk_err
                            (Some (ln 10 * bv * seg_brk_err brk_fit))))
             (fun _ =>
           mbind (modify (set_slope (Arr (slopes brk_fit)))) (fun _ =>
           mbind (modify (set_slope_err (Arr (slope_errs brk_fit)))) (fun _ =>
           mbind (modify (set_fit (FitSeg (seg_fit brk_fit)))) (fun _ =>
           mret (Np.select x (map (fun xi => Np.ltb xi (seg_brk brk_fit)) x),
                 Np.select y (map (fun xi => Np.ltb xi (seg_brk brk_fit)) x))
           )))))))
       else
         mbind (modify (set_brk None)) (fun _ =>
         mbind (mwarn break_failed_msg) (fun _ => mret (x, y)))) s.
Proof.
  assert (Hb : break_guess lb b s = (lift (inr g), s))
    by now rewrite break_guess_pure, Hg.
  unfold fit_break. now rewrite (mbind_pure_ok _ _ _ _ Hb).
Qed.

Lemma fit_break_seg_error (e : exn) :
  Lm_Seg_fit_model x y g vb = inl e ->
  fit_break (Some b) lb min_fits_pts vb x y s = (raise e, s).
Proof.
  intros Hs. rewrite fit_break_after_guess, Hs. apply mbind_mlift_err.
Qed.

Variable bf : Lm_Seg SegFit.
Hypothesis Hseg : Lm_Seg_fit_model x y g vb = inr bf.

Lemma fit_break_failed :
  params_size bf <> 5%nat ->
  fit_break (Some b) lb min_fits_pts vb x y s =
  (Outcome [break_failed_msg] (inr (x, y)), set_brk None s).
Proof.
  intros H5. rewrite fit_break_after_guess, Hseg, mbind_mlift_ok.
  apply Nat.eqb_neq in H5. rewrite H5.
  rewrite mbind_modify, mbind_mwarn. reflexivity.
Qed.

Lemma fit_break_rejected :
  params_size bf = 5%nat ->
  (Np.count_below x (seg_brk bf) < min_fits_pts)%Z ->
  fit_break (Some b) lb min_fits_pts vb x y s =
  (Outcome [not_enough_points_msg] (inr (x, y)), set_brk None s).
Proof.
  intros H5 Hc. rewrite fit_break_after_guess, Hseg, mbind_mlift_ok.
  apply Nat.eqb_eq in H5. rewrite H5.
  apply Z.ltb_lt in Hc. rewrite Hc.
  rewrite mbind_mwarn, mbind_modify. reflexivity.
Qed.

Lemma fit_break_accepted :
  params_size bf = 5%nat ->
  (min_fits_pts <= Np.count_below x (seg_brk bf))%Z ->
  fit_break (Some b) lb min_fits_pts vb x y s =
  (ret (Np.select x (map (fun xi => Np.ltb xi (seg_brk bf)) x),
        Np.select y (map (fun xi => Np.ltb xi (seg_brk bf)) x)),
   accepted_state bf s).
Proof.
  intros H5 Hc. rewrite fit_break_after_guess, Hseg, mbind_mlift_ok.
  apply Nat.eqb_eq in H5. rewrite H5.
  apply Z.ltb_ge in Hc. rewrite Hc.
  rewrite mbind_modify. step_get. cbn [read_attr].
  rewrite mbind_mlift_ok, !mbind_modify. reflexivity.
Qed.

End BreakStage.

(** *** The no-break stage *)

(** With a break in place the stage does nothing. *)
Lemma fit_no_break_skip (x y : list R) (s : PowerSpectrum) (v : R) :
  _brk s = Some (Some v) -> fit_no_break x y s = (ret tt, s).
Proof.
  intros Hb. unfold fit_no_break. now rewrite (mbind_get _ _ _ _ Hb).
Qed.

(** It never warns, and it leaves the break and its error alone. *)
Lemma fit_no_break_frame (x y : list R) (s : PowerSpectrum) :
  let r := fit_no_break x y s in
  warnings (fst r) = [] /\ _brk (snd r) = _brk s /\
  _brk_err (snd r) = _brk_err s /\
  low_cut (snd r) = low_cut s /\ high_cut (snd r) = high_cut s.
Proof.
  unfold fit_no_break.
  destruct (_brk s) as [[v|]|] eqn:Hb.
  - rewrite (mbind_get _ _ _ _ Hb). now simpl.
  - rewrite (mbind_get _ _ _ _ Hb).
    destruct (OLS_fit x y) as [e | r];
      [now rewrite mbind_mlift_err | rewrite mbind_mlift_ok, mbind_modify].
    destruct (index1 (params r)) as [e | sl];
      [now rewrite mbind_mlift_err | rewrite mbind_mlift_ok, mbind_modify].
    destruct (index1 (bse r)) as [e | se];
      [now rewrite mbind_mlift_err | rewrite mbind_mlift_ok].
    now simpl.
  - now rewrite (mbind_get_unset _ _ _ Hb).
Qed.

(** Without a break the stage is the OLS fit: its outcome, the slope and
    the slope error it leaves depend on the data only, and on what the
    slope attributes held before. *)
Lemma fit_no_break_same (x y : list R) (s1 s2 : PowerSpectrum) :
  _brk s1 = Some None -> _brk s2 = Some None ->
  _slope s1 = _slope s2 -> _slope_err s1 = _slope_err s2 ->
  fit s1 = fit s2 ->
  let r1 := fit_no_break x y s1 in
  let r2 := fit_no_break x y s2 in
  fst r1 = fst r2 /\ _slope (snd r1) = _slope (snd r2) /\
  _slope_err (snd r1) = _slope_err (snd r2) /\ fit (snd r1) = fit (snd r2).
Proof.
  intros Hb1 Hb2 Hs He Hf. unfold fit_no_break.
  rewrite (mbind_get _ _ _ _ Hb1), (mbind_get _ _ _ _ Hb2).
  destruct (OLS_fit x y) as [e | r];
    [now rewrite !mbind_mlift_err | rewrite !mbind_mlift_ok, !mbind_modify].
  destruct (index1 (params r)) as [e | sl];
    [now rewrite !mbind_mlift_err | rewrite !mbind_mlift_ok, !mbind_modify].
  destruct (index1 (bse r)) as [e | se];
    [now rewrite !mbind_mlift_err | rewrite !mbind_mlift_ok].
  now simpl.
Qed.



(** Sequencing a stage whose outcome is known. *)
Lemma mbind_known {A B} (m : method PowerSpectrum A)
  (k : A -> method PowerSpectrum B) (s s1 : PowerSpectrum)
  (w : list string) (a : A) :
  m s = (Outcome w (inr a), s1) ->
  mbind m k s =
  (Outcome (w ++ warnings (fst (k a s1))) (value (fst (k a s1))),
   snd (k a s1)).
Proof.
  intros H. unfold mbind. rewrite H. simpl.
  now destruct (k a s1) as [[w2 v2] s2].
Qed.

Lemma mbind_known_err {A B} (m : method PowerSpectrum A)
  (k : A -> method PowerSpectrum B) (s s1 : PowerSpectrum)
  (w : list string) (e : exn) :
  m s = (Outcome w (inl e), s1) ->
  mbind m k s = (Outcome w (inl e), s1).
Proof. intros H. unfold mbind. now rewrite H. Qed.


(** The three ways through the break stage, for the whole call. *)
Section Paths.
Variables (lb vb : bool) (lc hc : option (pyval Quantity)) (min_fits_pts : Z).
Variables (p : PowerSpectrum) (x y : list R).
Hypothesis Hxy : fit_xy lc hc p = inr (x, y).

Lemma fit_pspec_no_guess :
  let R := fit_no_break x y
             (set_brk_err None (set_brk None (limits_state lc hc p))) in
  fit_pspec None lb lc hc min_fits_pts vb p =
  (Outcome (warnings (fst R)) (value (fst R)), snd R).
Proof.
  cbv zeta. rewrite (fit_pspec_stages _ _ _ _ _ _ _ x y Hxy).
  now rewrite (mbind_known _ _ _ _ _ _ (fit_break_none _ _ _ _ _ _)).
Qed.

Variables (b : pyval Quantity) (g : R) (bf : Lm_Seg SegFit).
Hypothesis Hg : guess_of lb b p = inr g.
Hypothesis Hseg : Lm_Seg_fit_model x y g vb = inr bf.
Hypothesis H5 : params_size bf = 5%nat.

Lemma fit_pspec_rejected :
  (Np.count_below x (seg_brk bf) < min_fits_pts)%Z ->
  let R := fit_no_break x y (set_brk None (limits_state lc hc p)) in
  fit_pspec (Some b) lb lc hc min_fits_pts vb p =
  (Outcome (not_enough_points_msg :: warnings (fst R)) (value (fst R)),
   snd R).
Proof.
  intros Hc. cbv zeta. rewrite (fit_pspec_stages _ _ _ _ _ _ _ x y Hxy).
  rewrite <- (guess_of_limits lb b lc hc p) in Hg.
  now rewrite (mbind_known _ _ _ _ _ _
                 (fit_break_rejected _ _ _ _ _ _ _ _ Hg _ Hseg H5 Hc)).
Qed.

Lemma fit_pspec_accepted :
  (min_fits_pts <= Np.count_below x (seg_brk bf))%Z ->
  fit_pspec (Some b) lb lc hc min_fits_pts vb p =
  (ret tt, accepted_state bf (limits_state lc hc p)).
Proof.
  intros Hc. rewrite (fit_pspec_stages _ _ _ _ _ _ _ x y Hxy).
  rewrite <- (guess_of_limits lb b lc hc p) in Hg.
  rewrite (mbind_known _ _ _ _ _ _
             (fit_break_accepted _ _ _ _ _ _ _ _ Hg _ Hseg H5 Hc)).
  cbn [fst snd].
  now rewrite (fit_no_break_skip _ _ (accepted_state bf _)
                 (Rpower 10 (seg_brk bf)) eq_refl).
Qed.

End Paths.


End Pipeline.

End FitFacts.

Module FitClaims.

Import NdVal PSpec PSpecFacts FitFacts Examples.



(** C8.  In a [fit_pspec] call whose break is accepted (five parameters,
    at least [min_fits_pts] points below the fitted break) the call returns,
    the stored break is 10 raised to the fitted log-space break, and the
    stored break error is ln(10) times that linear break times the
    log-space break error. *)
Theorem accepted_break_linear {L : PSpecLib} (p : PowerSpectrum)
  (b : pyval Quantity) (log_break : bool)
  (low_cut_arg high_cut_arg : option (pyval Quantity))
  (min_fits_pts : Z) (verbose : bool)
  (x y : list R) (g : R) (bf : Lm_Seg SegFit) :
  fit_xy low_cut_arg high_cut_arg p = inr (x, y) ->
  guess_of log_break b p = inr g ->
  Lm_Seg_fit_model x y g verbose = inr bf ->
  params_size bf = 5%nat ->
  (min_fits_pts <= Np.count_below x (seg_brk bf))%Z ->
  let r := fit_pspec (Some b) log_break low_cut_arg high_cut_arg
             min_fits_pts verbose p in
  fst r = ret tt /\
  brk (snd r) = inr (Some (Rpower 10 (seg_brk bf))) /\
  brk_err (snd r) =
    inr (Some (ln 10 * Rpower 10 (seg_brk bf) * seg_brk_err bf)).
Proof.
  intros Hxy Hg Hseg H5 Hcnt r. subst r.
  rewrite (fit_pspec_stages _ _ _ _ _ _ _ x y Hxy).
  rewrite <- (guess_of_limits log_break b low_cut_arg high_cut_arg p) in Hg.
  set (p1 := limits_state low_cut_arg high_cut_arg p) in *.
  rewrite (mbind_known _ _ _ _ _ _
             (fit_break_accepted _ _ _ _ _ _ _ _ Hg _ Hseg H5 Hcnt)).
  cbn [fst snd].
  rewrite (fit_no_break_skip _ _ (accepted_state bf p1)
             (Rpower 10 (seg_brk bf)) eq_refl).
  repeat split.
Qed.

(** With [min_fits_pts=0] the break of the stand-in fit is accepted. *)
Lemma accepted_break_linear_witness :
  let r := fit_pspec (L := ex_pspec_lib) (Some (PyQuantity (3 / 10))) false
             None None 0 false ex_binned in
  fst r = ret tt /\
  brk (snd r) = inr (Some (Rpower 10 (Np.log10 (3 / 10)))) /\
  brk_err (snd r) =
    inr (Some (ln 10 * Rpower 10 (Np.log10 (3 / 10)) * (1 / 10))).
Proof.
  refine (accepted_break_linear (L := ex_pspec_lib) ex_binned
            (PyQuantity (3 / 10)) false None None 0 false _ _ _ _
            eq_refl eq_refl eq_refl eq_refl _).
  apply count_below_bounds.
Defined.




End FitClaims.

(** ** The distance between two fitted pipelines *)

Module DistanceFacts.

Import NdVal PSpec.

(** Mapping over the value of a result. *)
Definition emap {A B} (h : A -> B) (r : exn + A) : exn + B :=
  ebind r (fun a => inr (h a)).

Section ZipWith.
Context {A B C : Type}.

Lemma zip_with_ext (f f' : A -> B -> C) (a : list A) (b : list B) :
  (forall x y, f x y = f' x y) -> Np.zip_with f a b = Np.zip_with f' a b.
Proof.
  intros H. revert b. induction a as [|x a IH]; intros [|y b]; simpl;
    try reflexivity.
  now rewrite H, IH.
Qed.

Lemma zip_with_flip (f : A -> B -> C) (a : list A) (b : list B) :
  Np.zip_with f a b = Np.zip_with (fun y x => f x y) b a.
Proof.
  revert b. induction a as [|x a IH]; intros [|y b]; simpl; try reflexivity.
  now rewrite IH.
Qed.

Lemma zip_with_post {D} (f : A -> B -> C) (h : C -> D)
  (a : list A) (b : list B) :
  Np.zip_with (fun x y => h (f x y)) a b = map h (Np.zip_with f a b).
Proof.
  revert b. induction a as [|x a IH]; intros [|y b]; simpl; try reflexivity.
  now rewrite IH.
Qed.

Lemma zip_with_pre_l {A'} (f : A -> B -> C) (g : A' -> A)
  (a : list A') (b : list B) :
  Np.zip_with f (map g a) b = Np.zip_with (fun x y => f (g x) y) a b.
Proof.
  revert b. induction a as [|x a IH]; intros [|y b]; simpl; try reflexivity.
  now rewrite IH.
Qed.

Lemma zip_with_pre_r {B'} (f : A -> B -> C) (g : B' -> B)
  (a : list A) (b : list B') :
  Np.zip_with f a (map g b) = Np.zip_with (fun x y => f x (g y)) a b.
Proof.
  revert b. induction a as [|x a IH]; intros [|y b]; simpl; try reflexivity.
  now rewrite IH.
Qed.

End ZipWith.

(** Case analysis on the two lists of a broadcast: empty, one entry, more. *)
Ltac by_shape xs ys :=
  destruct xs as [|? [|? ?]]; destruct ys as [|? [|? ?]];
  cbn [length Nat.eqb map Np.zip_with];
  try reflexivity.

Lemma broadcast2_ext (f f' : R -> R -> R) (a b : ndval) :
  (forall x y, f x y = f' x y) -> broadcast2 f a b = broadcast2 f' a b.
Proof.
  intros H. destruct a as [x | xs], b as [y | ys]; simpl.
  - now rewrite H.
  - do 2 f_equal. apply map_ext. intros; apply H.
  - do 2 f_equal. apply map_ext. intros; apply H.
  - rewrite (zip_with_ext f f' xs ys H).
    destruct (length xs =? length ys)%nat; [reflexivity|].
    assert (Hl : forall (x : R) l, map (f x) l = map (f' x) l)
      by (intros; apply map_ext; intros; apply H).
    assert (Hr : forall (y : R) l,
               map (fun x => f x y) l = map (fun x => f' x y) l)
      by (intros; apply map_ext; intros; apply H).
    destruct xs as [|x [|x' xs]]; destruct ys as [|y [|y' ys]];
      rewrite ?Hl, ?Hr; reflexivity.
Qed.

Lemma broadcast2_flip (f : R -> R -> R) (a b : ndval) :
  broadcast2 f a b = broadcast2 (fun y x => f x y) b a.
Proof.
  destruct a as [x | xs], b as [y | ys]; simpl; try reflexivity.
  rewrite (Nat.eqb_sym (length ys)), (zip_with_flip f xs ys).
  destruct (length xs =? length ys)%nat eqn:E; [reflexivity|].
  revert E. by_shape xs ys; discriminate.
Qed.

Lemma broadcast2_post (f : R -> R -> R) (h : R -> R) (a b : ndval) :
  broadcast2 (fun x y => h (f x y)) a b = emap (ndmap h) (broadcast2 f a b).
Proof.
  destruct a as [x | xs], b as [y | ys]; simpl; try reflexivity.
  - now rewrite map_map.
  - now rewrite map_map.
  - rewrite zip_with_post.
    destruct (length xs =? length ys)%nat; [reflexivity|].
    by_shape xs ys; cbn; now rewrite ?map_map.
Qed.

Lemma broadcast2_pre_l (f : R -> R -> R) (g : R -> R) (a b : ndval) :
  broadcast2 f (ndmap g a) b = broadcast2 (fun x y => f (g x) y) a b.
Proof.
  destruct a as [x | xs], b as [y | ys]; simpl; try reflexivity.
  - now rewrite map_map.
  - rewrite length_map, zip_with_pre_l.
    destruct (length xs =? length ys)%nat; [reflexivity|].
    by_shape xs ys; cbn; now rewrite ?map_map.
Qed.

Lemma broadcast2_pre_r (f : R -> R -> R) (g : R -> R) (a b : ndval) :
  broadcast2 f a (ndmap g b) = broadcast2 (fun x y => f x (g y)) a b.
Proof.
  destruct a as [x | xs], b as [y | ys]; simpl; try reflexivity.
  - now rewrite map_map.
  - rewrite length_map, zip_with_pre_r.
    destruct (length xs =? length ys)%nat; [reflexivity|].
    by_shape xs ys; cbn; now rewrite ?map_map.
Qed.

Lemma ndmap_ndmap (g h : R -> R) (a : ndval) :
  ndmap h (ndmap g a) = ndmap (fun x => h (g x)) a.
Proof. destruct a; simpl; [reflexivity | now rewrite map_map]. Qed.

Lemma ndmap_ext (g h : R -> R) (a : ndval) :
  (forall x, g x = h x) -> ndmap g a = ndmap h a.
Proof.
  intros H. destruct a; simpl; [now rewrite H | f_equal; now apply map_ext].
Qed.

Lemma Rabs_div_sqrt (a b : R) : Rabs (a / sqrt b) = Rabs a / sqrt b.
Proof.
  unfold Rdiv. rewrite Rabs_mult, Rabs_inv.
  now rewrite (Rabs_right (sqrt b)) by apply Rle_ge, sqrt_pos.
Qed.

(** Exchanging the operands negates the difference and keeps the sum. *)
Lemma nd_sub_swap (a b : ndval) :
  nd_sub b a = emap (ndmap Ropp) (nd_sub a b).
Proof.
  unfold nd_sub. rewrite (broadcast2_flip Rminus b a), <- broadcast2_post.
  apply broadcast2_ext. intros; ring.
Qed.

Lemma nd_add_swap (a b : ndval) : nd_add b a = nd_add a b.
Proof.
  unfold nd_add. rewrite (broadcast2_flip Rplus b a).
  apply broadcast2_ext. intros; ring.
Qed.

(** The statistic of the code on operands already read. *)
Definition dist_nd (s1 s2 e1 e2 : ndval) : exn + ndval :=
  ebind (nd_sub s1 s2) (fun num =>
  ebind (nd_add (nd_square e1) (nd_square e2)) (fun ss =>
  ebind (nd_div num (nd_sqrt ss)) (fun q => inr (nd_abs q)))).

Lemma abs_div_opp (num d : ndval) :
  emap nd_abs (nd_div (ndmap Ropp num) d) = emap nd_abs (nd_div num d).
Proof.
  unfold nd_div, nd_abs. rewrite broadcast2_pre_l.
  rewrite <- !broadcast2_post. apply broadcast2_ext.
  intros x y. unfold Rdiv. now rewrite <- Ropp_mult_distr_l, Rabs_Ropp.
Qed.

Lemma dist_nd_sym (s1 s2 e1 e2 : ndval) :
  dist_nd s2 s1 e2 e1 = dist_nd s1 s2 e1 e2.
Proof.
  unfold dist_nd. rewrite nd_sub_swap, nd_add_swap.
  destruct (nd_sub s1 s2) as [e | num]; [reflexivity|]. simpl.
  destruct (nd_add (nd_square e1) (nd_square e2)) as [e | ss];
    [reflexivity|]. simpl.
  apply (abs_div_opp num (nd_sqrt ss)).
Qed.

Lemma dist_nd_spec (s1 s2 e1 e2 : ndval) :
  dist_nd s1 s2 e1 e2 = spec_distance_nd s1 s2 e1 e2.
Proof.
  unfold dist_nd, spec_distance_nd.
  destruct (nd_sub s1 s2) as [e | num]; [reflexivity|]. simpl.
  destruct (nd_add (nd_square e1) (nd_square e2)) as [e | ss];
    [reflexivity|]. simpl.
  change (emap nd_abs (nd_div num (nd_sqrt ss)) =
          nd_div (nd_abs num) (nd_sqrt ss)).
  unfold nd_div, nd_abs, nd_sqrt.
  rewrite broadcast2_pre_l, !broadcast2_pre_r, <- broadcast2_post.
  apply broadcast2_ext. intros; apply Rabs_div_sqrt.
Qed.

Section Pipeline.
Context {L : PSpecLib}.

Lemma distance_of_read (p1 p2 : PowerSpectrum) (s1 s2 e1 e2 : ndval) :
  slope p1 = inr s1 -> slope p2 = inr s2 ->
  slope_err p1 = inr e1 -> slope_err p2 = inr e2 ->
  distance_of p1 p2 = dist_nd s1 s2 e1 e2.
Proof.
  intros H1 H2 H3 H4. unfold distance_of, dist_nd.
  rewrite H1, H2, H3, H4. simpl.
  destruct (nd_sub s1 s2); reflexivity.
Qed.

Lemma distance_of_sym (p1 p2 : PowerSpectrum) :
  distance_of p2 p1 = distance_of p1 p2.
Proof.
  unfold distance_of, slope, slope_err.
  destruct (_slope p1) as [s1|], (_slope p2) as [s2|]; simpl;
    try reflexivity.
  rewrite (nd_sub_swap s1 s2).
  destruct (nd_sub s1 s2) as [e | num]; [reflexivity|]. simpl.
  destruct (_slope_err p1) as [e1|], (_slope_err p2) as [e2|]; simpl;
    try reflexivity.
  rewrite (nd_add_swap (nd_square e1) (nd_square e2)).
  destruct (nd_add (nd_square e1) (nd_square e2)) as [e | ss];
    [reflexivity|]. simpl.
  apply (abs_div_opp num (nd_sqrt ss)).
Qed.

End Pipeline.

End DistanceFacts.

Module DistanceClaims.

Import NdVal PSpec PSpecFacts DistanceFacts Examples.

(** C5.  [distance_metric] stores
    |slope1 - slope2| / sqrt(slope_err1^2 + slope_err2^2), element by element
    with numpy's broadcasting and as a single number for scalar slopes, and
    it stores the same value, or ends with the same exception, when the two
    pipelines are exchanged. *)
Theorem distance_metric_symmetric {L : PSpecLib} (p1 p2 : PowerSpectrum)
  (res : option unit) (d0 : option ndval) :
  let ab := distance_metric (mkPD p1 p2 res d0) in
  let ba := distance_metric (mkPD p2 p1 res d0) in
  fst ab = fst ba /\
  pd_distance (snd ab) = pd_distance (snd ba) /\
  (forall s1 s2 e1 e2 : ndval,
     slope p1 = inr s1 -> slope p2 = inr s2 ->
     slope_err p1 = inr e1 -> slope_err p2 = inr e2 ->
     forall d, spec_distance_nd s1 s2 e1 e2 = inr d ->
     fst ab = ret tt /\ pd_distance (snd ab) = Some d) /\
  (forall s1 s2 e1 e2 : R,
     slope p1 = inr (Scalar s1) -> slope p2 = inr (Scalar s2) ->
     slope_err p1 = inr (Scalar e1) -> slope_err p2 = inr (Scalar e2) ->
     fst ab = ret tt /\
     pd_distance (snd ab) = Some (Scalar (spec_distance s1 s2 e1 e2))).
Proof.
  intros ab ba. subst ab ba. unfold distance_metric. cbn [pspec1 pspec2].
  rewrite (distance_of_sym p1 p2).
  assert (Hst : forall s1 s2 e1 e2 : ndval,
     slope p1 = inr s1 -> slope p2 = inr s2 ->
     slope_err p1 = inr e1 -> slope_err p2 = inr e2 ->
     forall d, spec_distance_nd s1 s2 e1 e2 = inr d ->
     fst (mbind (mlift (distance_of p1 p2))
            (fun d => modify (fun s => mkPD (pspec1 s) (pspec2 s)
                                          (results s) (Some d)))
            (mkPD p1 p2 res d0)) = ret tt /\
     pd_distance (snd (mbind (mlift (distance_of p1 p2))
            (fun d => modify (fun s => mkPD (pspec1 s) (pspec2 s)
                                          (results s) (Some d)))
            (mkPD p1 p2 res d0))) = Some d).
  { intros s1 s2 e1 e2 H1 H2 H3 H4 d Hd.
    rewrite (distance_of_read p1 p2 s1 s2 e1 e2 H1 H2 H3 H4).
    rewrite dist_nd_spec, Hd, mbind_mlift_ok. split; reflexivity. }
  split; [|split; [|split]].
  - destruct (distance_of p1 p2);
      rewrite ?mbind_mlift_err, ?mbind_mlift_ok; reflexivity.
  - destruct (distance_of p1 p2);
      rewrite ?mbind_mlift_err, ?mbind_mlift_ok; reflexivity.
  - exact Hst.
  - intros s1 s2 e1 e2 H1 H2 H3 H4.
    exact (Hst _ _ _ _ H1 H2 H3 H4 _ eq_refl).
Qed.

(** Slopes -3 and -2.5 with errors 0.1 and 0.2. *)
Lemma distance_metric_symmetric_witness :
  let ab := distance_metric (L := ex_pspec_lib)
              (mkPD ex_fitted_a ex_fitted_b None None) in
  let ba := distance_metric (L := ex_pspec_lib)
              (mkPD ex_fitted_b ex_fitted_a None None) in
  pd_distance (snd ab) = pd_distance (snd ba) /\
  pd_distance (snd ab) =
    Some (Scalar (spec_distance (-3) (-5 / 2) (1 / 10) (2 / 10))).
Proof.
  destruct (distance_metric_symmetric (L := ex_pspec_lib)
              ex_fitted_a ex_fitted_b None None)
    as (_ & Hsym & _ & Hscalar).
  split; [exact Hsym|].
  exact (proj2 (Hscalar (-3) (-5 / 2) (1 / 10) (2 / 10)
                  eq_refl eq_refl eq_refl eq_refl)).
Defined.

End DistanceClaims.

(** ** More on spectral regridding: argument checks, units, kernel, range *)

Module RegridMore.

Import SliceThickness Claims NpFacts RegridFacts Examples.

Lemma ln_2_pos : 0 < ln 2.
Proof. rewrite <- ln_1. apply ln_increasing; lra. Qed.

Lemma fwhm_factor_pos : 0 < sqrt (8 * ln 2).
Proof. apply sqrt_lt_R0. pose proof ln_2_pos. lra. Qed.



Section Regrid.
Context {L : SpectralCubeLib}.

(** X1.  The argument checks of [spectral_regrid_cube] come in a fixed
    order and raise before the cube is touched: an object that is not a
    cube is a TypeError whatever the method and width; for a cube, a method
    other than 'regrid' and 'downsample' is a ValueError whatever the width;
    'downsample' with a width that is not an int, and 'regrid' with a width
    that is not a Quantity (an int included), are TypeErrors; 'downsample'
    with an int hands that int, unchecked, to [downsample_axis]. *)
Theorem regrid_argument_checks :
  (forall w m, spectral_regrid_cube OtherObj w m = raise TypeError) /\
  (forall c w m, m <> "regrid"%string -> m <> "downsample"%string ->
     spectral_regrid_cube (CubeObj c) w m = raise ValueError) /\
  (forall c w, (forall n, w <> WInt n) ->
     spectral_regrid_cube (CubeObj c) w "downsample" = raise TypeError) /\
  (forall c w, (forall v u, w <> WQuantity v u) ->
     spectral_regrid_cube (CubeObj c) w "regrid" = raise TypeError) /\
  (forall c n,
     spectral_regrid_cube (CubeObj c) (WInt n) "downsample" =
     lift (downsample_axis c n)).
Proof.
  split; [reflexivity|]. split; [|split; [|split]].
  - intros c w m Hr Hd. unfold spectral_regrid_cube. simpl existsb.
    apply String.eqb_neq in Hr, Hd.
    rewrite (String.eqb_sym m "regrid"), (String.eqb_sym m "downsample") in *.
    now rewrite Hr, Hd.
  - intros c w Hw. destruct w as [n | v u |]; [now elim (Hw n) | |];
      reflexivity.
  - intros c w Hw. destruct w as [n | v u |]; [| now elim (Hw v u) |];
      reflexivity.
  - reflexivity.
Qed.

(** X2.  The only warning [spectral_regrid_cube] ever emits is the one for
    an unchanged channel width, and whenever it is emitted the call returns
    the very cube it was given. *)
Theorem regrid_warning_means_unchanged (arg : cube_arg) (w : width_arg)
  (m : string) :
  warnings (spectral_regrid_cube arg w m) <> [] ->
  exists c, arg = CubeObj c /\
            spectral_regrid_cube arg w m =
            Outcome [equal_width_msg] (inr c).
Proof.
  unfold spectral_regrid_cube.
  destruct arg as [c|]; [|simpl; contradiction].
  destruct (negb _); [simpl; contradiction|].
  destruct (String.eqb m "downsample").
  { destruct w; simpl; contradiction. }
  destruct w as [n | v u |]; try (simpl; contradiction).
  destruct (Np.diff_first2 (spectral_axis c)) as [e | d];
    [rewrite bind_lift_err; simpl; contradiction|].
  rewrite !bind_lift_ok.
  destruct (target_resolution v u c d) as [e | t];
    [rewrite bind_lift_err; simpl; contradiction|].
  rewrite bind_lift_ok.
  destruct (Req_dec_T _ 1); [intros _; exists c; split; reflexivity|].
  destruct (Rlt_dec _ 1); [simpl; contradiction|].
  destruct (new_specaxis c _ d) as [e | ax];
    [rewrite bind_lift_err; simpl; contradiction|].
  rewrite bind_lift_ok. simpl. contradiction.
Qed.



(** X6.  In the regrid branch a cube with fewer than two channels has no
    channel width and the call raises IndexError; a width in a unit that is
    neither a pixel unit nor convertible to the unit of the spectral axis
    raises the unit conversion error.  Neither smooths or interpolates. *)
Theorem regrid_edge_errors :
  (forall (cube : Cube) v u,
     (length (spectral_axis cube) < 2)%nat ->
     spectral_regrid_cube (CubeObj cube) (WQuantity v u) "regrid" =
     raise IndexError) /\
  (forall (cube : Cube) v u,
     (2 <= length (spectral_axis cube))%nat ->
     is_equivalent_pix u = false ->
     unit_factor u (spectral_unit cube) = None ->
     spectral_regrid_cube (CubeObj cube) (WQuantity v u) "regrid" =
     raise UnitConversionError).
Proof.
  split.
  - intros cube v u Hlen. unfold spectral_regrid_cube.
    change (existsb (String.eqb "regrid") ["regrid"; "downsample"]%string)
      with true.
    change (String.eqb "regrid" "downsample") with false.
    cbv beta iota delta [negb].
    destruct (spectral_axis cube) as [|a0 [|a1 rest]]; simpl in Hlen;
      [reflexivity | reflexivity | lia].
  - intros cube v u Hlen Hpix Hfac. unfold spectral_regrid_cube.
    change (existsb (String.eqb "regrid") ["regrid"; "downsample"]%string)
      with true.
    change (String.eqb "regrid" "downsample") with false.
    cbv beta iota delta [negb].
    destruct (spectral_axis cube) as [|a0 [|a1 rest]]; simpl in Hlen;
      try lia.
    unfold Np.diff_first2. rewrite !bind_lift_ok.
    unfold target_resolution. now rewrite Hpix, Hfac.
Qed.

End Regrid.

(** X4.  The smoothing kernel closes the gap in quadrature: its FWHM in
    spectral units (the Gaussian width times sqrt(8 ln 2) times the channel
    width), squared, plus the square of the current channel width is the
    square of the target width, whenever the target is not narrower than
    the (non-zero) current width. *)
Theorem gaussian_width_quadrature (target current : R) :
  current <> 0 ->
  Rabs current <= Rabs target ->
  (gaussian_width target current * sqrt (8 * ln 2) * Rabs current) ^ 2
  + current ^ 2 = target ^ 2.
Proof.
  intros Hc Hle. unfold gaussian_width.
  pose proof fwhm_factor_pos as Hf.
  pose proof (Rabs_pos_lt current Hc) as Hp.
  assert (Hnn : 0 <= target ^ 2 - current ^ 2).
  { rewrite <- (pow2_abs target), <- (pow2_abs current).
    pose proof (Rabs_pos current). nra. }
  replace (sqrt (target ^ 2 - current ^ 2) / Rabs current / sqrt (8 * ln 2) *
           sqrt (8 * ln 2) * Rabs current)
    with (sqrt (target ^ 2 - current ^ 2)) by (field; lra).
  rewrite pow2_sqrt by exact Hnn. ring.
Qed.

(** From 1 m/s channels to 2 m/s channels. *)
Lemma gaussian_width_quadrature_witness :
  (gaussian_width 2 1 * sqrt (8 * ln 2) * Rabs 1) ^ 2 + 1 ^ 2 = 2 ^ 2.
Proof.
  apply gaussian_width_quadrature; [lra|].
  rewrite !Rabs_right; lra.
Defined.

(** One pixel on [cube4]: the warning, and the cube as it was. *)
Lemma regrid_warning_means_unchanged_witness :
  exists c,
    CubeObj (L := ex_cube_lib) cube4 = CubeObj c /\
    spectral_regrid_cube (L := ex_cube_lib) (CubeObj cube4)
      (WQuantity (L := ex_cube_lib) 1 pix) "regrid" =
    Outcome [equal_width_msg] (inr c).
Proof.
  apply (regrid_warning_means_unchanged (L := ex_cube_lib)).
  rewrite (regrid_unfold (L := ex_cube_lib) cube4 1 pix 0 1 [2; 3]
             (1 * (1 - 0)) eq_refl eq_refl).
  destruct (Req_dec_T (Rabs (1 * (1 - 0) / (1 - 0))) 1) as [_ | Hne].
  - discriminate.
  - exfalso. apply Hne.
    replace (1 * (1 - 0) / (1 - 0)) with 1 by field. apply Rabs_right. lra.
Defined.



End RegridMore.

(** ** More stand-ins *)

Module Examples2.

Import Examples.

(** The stand-in library with a segmented fit of one's choice, and with
    quantities that carry a flag saying whether they are dimensionless. *)
Definition ex_lib_with
  (seg : list R -> list R -> R -> bool -> exn + PSpec.Lm_Seg unit)
  : PSpec.PSpecLib :=
  {| PSpec.Quantity := (R * bool)%type;
     PSpec.quantity_value := fst;
     PSpec.is_dimensionless := snd;
     PSpec.Header := list R;
     PSpec.header_cdelt := fun h => h;
     PSpec.Beam := unit;
     PSpec.beam_as_kernel := fun _ _ ny nx => repeat (repeat 1 nx) ny;
     PSpec.apodizing_kernel := fun sh _ => repeat (repeat 1 (snd sh)) (fst sh);
     PSpec.fft2 := dft2;
     PSpec.pspec := fun _ return_stddev _ _ =>
       inr ([1 / 10; 2 / 10; 5 / 10], [100; 10; 1],
            if return_stddev then Some [1; 1; 1] else None);
     PSpec.clip_func := fun arr lo hi =>
       map (fun v => andb (Np.ltb lo v) (Np.ltb v hi)) arr;
     PSpec.to_pixel_freq := fun _ _ q =>
       match q with
       | PSpec.PyQuantity v => inr (fst v)
       | PSpec.PyFloat _ => inl TypeError
       end;
     PSpec.SegFit := unit;
     PSpec.Lm_Seg_fit_model := seg;
     PSpec.OLS_fit := simple_ols
  |}.

(** A segmented fit that does not converge, and one that raises. *)
Definition ex_lib_unconverged : PSpec.PSpecLib :=
  ex_lib_with (fun _ _ b _ => inr (PSpec.mkLm_Seg 3 b 0 [] [] tt)).
Definition ex_lib_raising : PSpec.PSpecLib :=
  ex_lib_with (fun _ _ _ _ => inl ValueError).

(** A binned pipeline, for any library. *)
Definition ex_binned_in (L : PSpec.PSpecLib) : PSpec.PowerSpectrum (L := L) :=
  PSpec.mkPS (L := L)
    [[1; 2]; [3; 0]] [[1; 2]; [3; 0]] None None None None
    (Some [[1; 4]; [9; 0]]) (Some [1 / 10; 2 / 10; 5 / 10])
    (Some [100; 10; 1]) (Some None) (Some false)
    None None None None None None None.

End Examples2.

(** ** More on fit_pspec: the other fallback, failures, invariants *)

Module FitMore.

Import NdVal PSpec PSpecFacts FitFacts Examples Examples2.

Section Pipeline.
Context {L : PSpecLib}.

(** The limits are in place once the data to fit are known. *)
Lemma limits_set (lc hc : option (pyval Quantity)) (p : PowerSpectrum)
  (x y : list R) :
  fit_xy lc hc p = inr (x, y) ->
  exists lo hi, low_cut (limits_state lc hc p) = Some lo /\
                high_cut (limits_state lc hc p) = Some hi.
Proof.
  unfold fit_xy, limits_state, mbind.
  destruct (set_fit_limits lc hc p) as [[w [e | []]] p1]; simpl;
    [discriminate|].
  rewrite (fit_data_pure p1). simpl.
  unfold fit_data, mbind, get, mret.
  destruct (_freqs p1); simpl; [|discriminate].
  destruct (low_cut p1) as [lo|]; simpl; [|discriminate].
  destruct (high_cut p1) as [hi|]; simpl; [|discriminate].
  intros _. now exists lo, hi.
Qed.

(** Without the data to fit the call ends with the exception that kept
    them from being made. *)
Lemma fit_pspec_prefix_error (brk : option (pyval Quantity)) (lb : bool)
  (lc hc : option (pyval Quantity)) (min_fits_pts : Z) (vb : bool)
  (p : PowerSpectrum) (e : exn) :
  fit_xy lc hc p = inl e ->
  value (fst (fit_pspec brk lb lc hc min_fits_pts vb p)) = inl e.
Proof.
  unfold fit_xy, fit_pspec, mbind.
  destruct (set_fit_limits lc hc p) as [[w [e' | []]] p1]; simpl;
    [now intros [= ->]|].
  rewrite (fit_data_pure p1). simpl.
  destruct (value (fst (fit_data p1))) as [e' | xy]; simpl;
    [now intros [= ->]|].
  destruct (fit_break _ _ _ _ _ _ p1) as [[w2 [e2 | xy2]] p2]; simpl;
    discriminate.
Qed.

(** What a returning no-break stage has done. *)
Lemma fit_no_break_returns (x y : list R) (s : PowerSpectrum) :
  _brk s = Some None ->
  value (fst (fit_no_break x y s)) = inr tt ->
  exists r sl se,
    OLS_fit x y = inr r /\
    index1 (params r) = inr sl /\ index1 (bse r) = inr se /\
    snd (fit_no_break x y s) =
    set_slope_err (Scalar se) (set_slope (Scalar sl) (set_fit (FitOLS r) s)).
Proof.
  intros Hb. unfold fit_no_break. rewrite (mbind_get _ _ _ _ Hb).
  destruct (OLS_fit x y) as [e | r];
    [rewrite mbind_mlift_err; discriminate
    | rewrite mbind_mlift_ok, mbind_modify].
  destruct (index1 (params r)) as [e | sl] eqn:Esl;
    [rewrite mbind_mlift_err; discriminate
    | rewrite mbind_mlift_ok, mbind_modify].
  destruct (index1 (bse r)) as [e | se] eqn:Ese;
    [rewrite mbind_mlift_err; discriminate | rewrite mbind_mlift_ok].
  intros _. now exists r, sl, se.
Qed.

(** Setting the limits leaves the break alone. *)
Lemma set_fit_limits_keeps_brk (lc hc : option (pyval Quantity))
  (s : PowerSpectrum) :
  _brk (limits_state lc hc s) = _brk s.
Proof.
  unfold limits_state, set_fit_limits, _to_pixel_freq, mbind, get, modify,
    mlift.
  destruct lc as [q|]; simpl.
  - destruct (to_pixel_freq (header s) (distance s) q); simpl;
      [reflexivity|].
    destruct hc as [q'|]; simpl.
    + now destruct (to_pixel_freq (header s) (distance s) q').
    + destruct (_freqs s) as [f|]; simpl; [|reflexivity].
      now destruct (Np.amax f).
  - destruct (_ps2D s); simpl; [|reflexivity].
    destruct hc as [q'|]; simpl.
    + now destruct (to_pixel_freq (header s) (distance s) q').
    + destruct (_freqs s) as [f|]; simpl; [|reflexivity].
      now destruct (Np.amax f).
Qed.

Section Paths.
Variables (lb vb : bool) (lc hc : option (pyval Quantity)) (min_fits_pts : Z).
Variables (p : PowerSpectrum) (x y : list R).
Hypothesis Hxy : fit_xy lc hc p = inr (x, y).
Variable b : pyval Quantity.

Lemma fit_pspec_guess_error (e : exn) :
  guess_of lb b p = inl e ->
  fit_pspec (Some b) lb lc hc min_fits_pts vb p =
  (raise e, limits_state lc hc p).
Proof.
  intros Hg. rewrite (fit_pspec_stages _ _ _ _ _ _ _ x y Hxy).
  rewrite <- (guess_of_limits lb b lc hc p) in Hg.
  now rewrite (mbind_known_err _ _ _ _ _ _
                 (fit_break_guess_error _ _ _ _ _ _ _ _ Hg)).
Qed.

Variable g : R.
Hypothesis Hg : guess_of lb b p = inr g.

Lemma fit_pspec_seg_error (e : exn) :
  Lm_Seg_fit_model x y g vb = inl e ->
  fit_pspec (Some b) lb lc hc min_fits_pts vb p =
  (raise e, limits_state lc hc p).
Proof.
  intros Hs. rewrite (fit_pspec_stages _ _ _ _ _ _ _ x y Hxy).
  rewrite <- (guess_of_limits lb b lc hc p) in Hg.
  now rewrite (mbind_known_err _ _ _ _ _ _
                 (fit_break_seg_error _ _ _ _ _ _ _ _ Hg _ Hs)).
Qed.

Lemma fit_pspec_failed (bf : Lm_Seg SegFit) :
  Lm_Seg_fit_model x y g vb = inr bf ->
  params_size bf <> 5%nat ->
  let R := fit_no_break x y (set_brk None (limits_state lc hc p)) in
  fit_pspec (Some b) lb lc hc min_fits_pts vb p =
  (Outcome (break_failed_msg :: warnings (fst R)) (value (fst R)), snd R).
Proof.
  intros Hseg H5. cbv zeta. rewrite (fit_pspec_stages _ _ _ _ _ _ _ x y Hxy).
  rewrite <- (guess_of_limits lb b lc hc p) in Hg.
  now rewrite (mbind_known _ _ _ _ _ _
                 (fit_break_failed _ _ _ _ _ _ _ _ Hg _ Hseg H5)).
Qed.

End Paths.

(** X7.  When the segmented fit does not come back with five parameters,
    [fit_pspec] emits exactly the "break failed" warning, whatever
    [min_fits_pts] is, leaves [brk] at None and [_brk_err] as it was, and
    its outcome, slope, slope error and fit object are those of the call
    without a break guess. *)
Theorem failed_break_falls_back (p : PowerSpectrum)
  (b : pyval Quantity) (log_break : bool)
  (low_cut_arg high_cut_arg : option (pyval Quantity))
  (min_fits_pts : Z) (verbose : bool)
  (x y : list R) (g : R) (bf : Lm_Seg SegFit) :
  fit_xy low_cut_arg high_cut_arg p = inr (x, y) ->
  guess_of log_break b p = inr g ->
  Lm_Seg_fit_model x y g verbose = inr bf ->
  params_size bf <> 5%nat ->
  let r := fit_pspec (Some b) log_break low_cut_arg high_cut_arg
             min_fits_pts verbose p in
  let r0 := fit_pspec None log_break low_cut_arg high_cut_arg
              min_fits_pts verbose p in
  warnings (fst r) = [break_failed_msg] /\
  brk (snd r) = inr None /\
  _brk_err (snd r) = _brk_err p /\
  value (fst r) = value (fst r0) /\
  slope (snd r) = slope (snd r0) /\
  slope_err (snd r) = slope_err (snd r0) /\
  fit (snd r) = fit (snd r0).
Proof.
  intros Hxy Hg Hseg H5 r r0. subst r r0.
  rewrite (fit_pspec_failed _ _ _ _ _ _ _ _ Hxy _ _ Hg _ Hseg H5).
  rewrite (fit_pspec_no_guess _ _ _ _ _ _ _ _ Hxy).
  set (p1 := limits_state low_cut_arg high_cut_arg p).
  destruct (set_fit_limits_frame low_cut_arg high_cut_arg p)
    as (_ & _ & _ & Hbe & _).
  fold (limits_state low_cut_arg high_cut_arg p) in Hbe. fold p1 in Hbe.
  destruct (fit_no_break_frame x y (set_brk None p1))
    as (Hw & Hb & Hbe' & _).
  destruct (fit_no_break_same x y (set_brk None p1)
              (set_brk_err None (set_brk None p1))
              eq_refl eq_refl eq_refl eq_refl eq_refl)
    as (Hfst & Hsl & Hse & Hfit).
  cbv zeta in Hw, Hb, Hbe', Hfst, Hsl, Hse, Hfit.
  cbn [fst snd warnings value]. unfold brk, slope, slope_err.
  rewrite Hw, Hb, Hbe', Hsl, Hse, Hfit, Hfst.
  repeat split. exact Hbe.
Qed.

(** X8.  An accepted break stores what the segmented fit found: the two
    slopes and their errors as arrays and the fit object of [Lm_Seg]; no
    warning is emitted, and the OLS fit is not run. *)
Theorem accepted_break_stores_segments (p : PowerSpectrum)
  (b : pyval Quantity) (log_break : bool)
  (low_cut_arg high_cut_arg : option (pyval Quantity))
  (min_fits_pts : Z) (verbose : bool)
  (x y : list R) (g : R) (bf : Lm_Seg SegFit) :
  fit_xy low_cut_arg high_cut_arg p = inr (x, y) ->
  guess_of log_break b p = inr g ->
  Lm_Seg_fit_model x y g verbose = inr bf ->
  params_size bf = 5%nat ->
  (min_fits_pts <= Np.count_below x (seg_brk bf))%Z ->
  let r := fit_pspec (Some b) log_break low_cut_arg high_cut_arg
             min_fits_pts verbose p in
  warnings (fst r) = [] /\
  slope (snd r) = inr (Arr (slopes bf)) /\
  slope_err (snd r) = inr (Arr (slope_errs bf)) /\
  fit (snd r) = Some (FitSeg (seg_fit bf)).
Proof.
  intros Hxy Hg Hseg H5 Hc r. subst r.
  rewrite (fit_pspec_accepted _ _ _ _ _ _ _ _ Hxy _ _ _ Hg Hseg H5 Hc).
  repeat split.
Qed.

(** X9.  A [fit_pspec] call that returns leaves a complete fit: both
    limits are set, and either [brk] is None with a scalar slope and slope
    error taken from entry 1 of the parameters and standard errors of the
    stored OLS result, or [brk] and [brk_err] hold the linear break of a
    five-parameter segmented fit whose slopes, errors and fit object are the
    ones stored. *)
Theorem fit_pspec_returns_fitted (p : PowerSpectrum)
  (brk_arg : option (pyval Quantity)) (log_break : bool)
  (low_cut_arg high_cut_arg : option (pyval Quantity))
  (min_fits_pts : Z) (verbose : bool) :
  let r := fit_pspec brk_arg log_break low_cut_arg high_cut_arg
             min_fits_pts verbose p in
  value (fst r) = inr tt ->
  (exists lo hi, low_cut (snd r) = Some lo /\ high_cut (snd r) = Some hi) /\
  ((exists ols sl se,
      brk (snd r) = inr None /\
      fit (snd r) = Some (FitOLS ols) /\
      index1 (params ols) = inr sl /\ index1 (bse ols) = inr se /\
      slope (snd r) = inr (Scalar sl) /\
      slope_err (snd r) = inr (Scalar se)) \/
   (exists bf,
      params_size bf = 5%nat /\
      brk (snd r) = inr (Some (Rpower 10 (seg_brk bf))) /\
      brk_err (snd r) =
        inr (Some (ln 10 * Rpower 10 (seg_brk bf) * seg_brk_err bf)) /\
      fit (snd r) = Some (FitSeg (seg_fit bf)) /\
      slope (snd r) = inr (Arr (slopes bf)) /\
      slope_err (snd r) = inr (Arr (slope_errs bf)))).
Proof.
  intros r Hok. subst r.
  destruct (fit_xy low_cut_arg high_cut_arg p) as [e | [x y]] eqn:Hxy.
  { rewrite (fit_pspec_prefix_error _ _ _ _ _ _ _ _ Hxy) in Hok.
    discriminate. }
  destruct (limits_set _ _ _ _ _ Hxy) as (lo & hi & Hlo & Hhi).
  set (p1 := limits_state low_cut_arg high_cut_arg p) in *.
  assert (Hols : forall (w : list string) (s : PowerSpectrum),
    _brk s = Some None -> low_cut s = Some lo -> high_cut s = Some hi ->
    value (fst (Outcome (w ++ warnings (fst (fit_no_break x y s)))
                  (value (fst (fit_no_break x y s))),
                snd (fit_no_break x y s))) = inr tt ->
    (exists lo hi, low_cut (snd (fit_no_break x y s)) = Some lo /\
                   high_cut (snd (fit_no_break x y s)) = Some hi) /\
    exists ols sl se,
      brk (snd (fit_no_break x y s)) = inr None /\
      fit (snd (fit_no_break x y s)) = Some (FitOLS ols) /\
      index1 (params ols) = inr sl /\ index1 (bse ols) = inr se /\
      slope (snd (fit_no_break x y s)) = inr (Scalar sl) /\
      slope_err (snd (fit_no_break x y s)) = inr (Scalar se)).
  { intros w s Hb Hl Hh Hv. cbn [fst value] in Hv.
    destruct (fit_no_break_returns x y s Hb Hv)
      as (ols & sl & se & _ & Hsl & Hse & Hst).
    rewrite Hst. unfold brk, slope, slope_err. cbn.
    split; [exists lo, hi; now split|].
    exists ols, sl, se. rewrite Hb. now repeat split. }
  destruct brk_arg as [b|].
  2:{ rewrite (fit_pspec_no_guess _ _ _ _ _ _ _ _ Hxy) in *.
      destruct (Hols [] (set_brk_err None (set_brk None p1))
                  eq_refl Hlo Hhi Hok) as [H1 H2].
      cbn [snd]. split; [exact H1 | left; exact H2]. }
  destruct (guess_of log_break b p) as [e | g] eqn:Hg.
  { rewrite (fit_pspec_guess_error _ _ _ _ _ _ _ _ Hxy _ _ Hg) in Hok.
    discriminate. }
  destruct (Lm_Seg_fit_model x y g verbose) as [e | bf] eqn:Hseg.
  { rewrite (fit_pspec_seg_error _ _ _ _ _ _ _ _ Hxy _ _ Hg _ Hseg) in Hok.
    discriminate. }
  destruct (Nat.eq_dec (params_size bf) 5) as [H5 | H5].
  2:{ rewrite (fit_pspec_failed _ _ _ _ _ _ _ _ Hxy _ _ Hg _ Hseg H5) in *.
      destruct (Hols [break_failed_msg] (set_brk None p1)
                  eq_refl Hlo Hhi Hok) as [H1 H2].
      cbn [snd]. split; [exact H1 | left; exact H2]. }
  destruct (Z_lt_le_dec (Np.count_below x (seg_brk bf)) min_fits_pts)
    as [Hc | Hc].
  - rewrite (fit_pspec_rejected _ _ _ _ _ _ _ _ Hxy _ _ _ Hg Hseg H5 Hc) in *.
    destruct (Hols [not_enough_points_msg] (set_brk None p1)
                eq_refl Hlo Hhi Hok) as [H1 H2].
    cbn [snd]. split; [exact H1 | left; exact H2].
  - rewrite (fit_pspec_accepted _ _ _ _ _ _ _ _ Hxy _ _ _ Hg Hseg H5 Hc).
    cbn [snd]. split; [exists lo, hi; now split|].
    right. exists bf. now repeat split.
Qed.

(** X10.  With both limits left out, [fit_pspec] needs the 2D spectrum and
    a non-empty profile: without a 2D spectrum it raises AttributeError and
    leaves the object as it was; with a spectrum but no profile it raises
    AttributeError, and with an empty profile ValueError, in both cases
    after the low cutoff has been stored. *)
Theorem default_limit_failures (brk_arg : option (pyval Quantity))
  (log_break : bool) (min_fits_pts : Z) (verbose : bool) :
  (forall p hc, _ps2D p = None ->
     fit_pspec brk_arg log_break None hc min_fits_pts verbose p =
     (raise AttributeError, p)) /\
  (forall p a, _ps2D p = Some a -> _freqs p = None ->
     fit_pspec brk_arg log_break None None min_fits_pts verbose p =
     (raise AttributeError,
      set_low_cut (1 / (0.5 * INR (max_shape a))) p)) /\
  (forall p a, _ps2D p = Some a -> _freqs p = Some [] ->
     fit_pspec brk_arg log_break None None min_fits_pts verbose p =
     (raise ValueError,
      set_low_cut (1 / (0.5 * INR (max_shape a))) p)).
Proof.
  split; [|split].
  - intros p hc H2. unfold fit_pspec, set_fit_limits.
    rewrite !mbind_assoc. now rewrite (mbind_get_unset _ _ _ H2).
  - intros p a H2 Hf. unfold fit_pspec, set_fit_limits.
    rewrite !mbind_assoc, (mbind_get _ _ _ _ H2), mbind_modify.
    rewrite !mbind_assoc.
    now rewrite (mbind_get_unset _ (set_low_cut _ p) _freqs Hf).
  - intros p a H2 Hf. unfold fit_pspec, set_fit_limits.
    rewrite !mbind_assoc, (mbind_get _ _ _ _ H2), mbind_modify.
    rewrite !mbind_assoc.
    rewrite (mbind_get _ (set_low_cut _ p) _freqs [] Hf).
    rewrite !mbind_assoc. cbn [Np.amax]. now rewrite mbind_mlift_err.
Qed.

(** X11.  An exception on the way to the break fit (the break guess cannot
    be converted, a logged guess is not dimensionless, or [Lm_Seg] raises)
    ends [fit_pspec] with that exception and without a warning, and leaves
    [brk], [brk_err], the slope, its error and the fit object as they were
    before the call. *)
Theorem break_errors_leave_results (p : PowerSpectrum)
  (b : pyval Quantity) (log_break : bool)
  (low_cut_arg high_cut_arg : option (pyval Quantity))
  (min_fits_pts : Z) (verbose : bool) (x y : list R) (e : exn) :
  fit_xy low_cut_arg high_cut_arg p = inr (x, y) ->
  guess_of log_break b p = inl e \/
  (exists g, guess_of log_break b p = inr g /\
             Lm_Seg_fit_model x y g verbose = inl e) ->
  let r := fit_pspec (Some b) log_break low_cut_arg high_cut_arg
             min_fits_pts verbose p in
  fst r = raise e /\
  _brk (snd r) = _brk p /\ _brk_err (snd r) = _brk_err p /\
  _slope (snd r) = _slope p /\ _slope_err (snd r) = _slope_err p /\
  fit (snd r) = fit p.
Proof.
  intros Hxy Herr r.
  assert (Hr : r = (raise e, limits_state low_cut_arg high_cut_arg p)).
  { subst r. destruct Herr as [Hg | (g & Hg & Hs)].
    - apply (fit_pspec_guess_error _ _ _ _ _ _ _ _ Hxy _ _ Hg).
    - apply (fit_pspec_seg_error _ _ _ _ _ _ _ _ Hxy _ _ Hg _ Hs). }
  rewrite Hr. cbn [fst snd].
  destruct (set_fit_limits_frame low_cut_arg high_cut_arg p)
    as (_ & _ & _ & Hbe & Hs & Hse & Hf).
  fold (limits_state low_cut_arg high_cut_arg p) in Hbe, Hs, Hse, Hf.
  rewrite set_fit_limits_keeps_brk. now repeat split.
Qed.

(** With [log_break=True] a quantity with a dimension fails the
    assertion. *)
Lemma guess_of_dimensional (q : Quantity) (p : PowerSpectrum) :
  is_dimensionless q = false ->
  guess_of true (PyQuantity q) p = inl AssertionError.
Proof.
  intros Hq. unfold guess_of, break_guess. cbn [negb]. now rewrite Hq.
Qed.

Lemma mbind_head {A B} (m m' : method PowerSpectrum A)
  (k : A -> method PowerSpectrum B) (s : PowerSpectrum) :
  m s = m' s -> mbind m k s = mbind m' k s.
Proof. intros H. unfold mbind. now rewrite H. Qed.

(** [fit_pspec] sees the break guess only through its value in log
    space. *)
Lemma fit_pspec_guess_only (b b' : pyval Quantity) (lb lb' : bool)
  (lc hc : option (pyval Quantity)) (min_fits_pts : Z) (vb : bool)
  (p : PowerSpectrum) :
  guess_of lb b p = guess_of lb' b' p ->
  fit_pspec (Some b) lb lc hc min_fits_pts vb p =
  fit_pspec (Some b') lb' lc hc min_fits_pts vb p.
Proof.
  intros Hg.
  rewrite <- (guess_of_limits lb b lc hc p) in Hg.
  rewrite <- (guess_of_limits lb' b' lc hc p) in Hg.
  unfold fit_pspec, limits_state in *.
  destruct (set_fit_limits lc hc p) as [[w [e | []]] p1] eqn:E.
  { now rewrite !(mbind_known_err _ _ _ _ _ _ E). }
  rewrite !(mbind_known _ _ _ _ _ _ E). cbn [snd] in Hg.
  assert (Hbg : forall (z z' : list R),
            fit_break (Some b) lb min_fits_pts vb z z' p1 =
            fit_break (Some b') lb' min_fits_pts vb z z' p1).
  { intros z z'. unfold fit_break.
    pose proof (break_guess_pure lb b p1) as H1.
    pose proof (break_guess_pure lb' b' p1) as H2.
    rewrite <- Hg in H2.
    destruct (guess_of lb b p1) as [e | g].
    - now rewrite (mbind_pure_err _ _ _ _ H1), (mbind_pure_err _ _ _ _ H2).
    - now rewrite (mbind_pure_ok _ _ _ _ H1), (mbind_pure_ok _ _ _ _ H2). }
  pose proof (fit_data_pure p1) as Hd.
  destruct (value (fst (fit_data p1))) as [e | xy].
  - now rewrite !(mbind_pure_err _ _ _ _ Hd).
  - rewrite !(mbind_pure_ok _ _ _ _ Hd).
    now rewrite (mbind_head _ _ _ _ (Hbg (fst xy) (snd xy))).
Qed.

(** X12.  A break given in log space with [log_break=True] and the break
    whose pixel frequency is 10 to that power, given with
    [log_break=False], lead to the same call: same outcome, same warnings,
    same object. *)
Theorem log_break_round_trip (p : PowerSpectrum) (b : pyval Quantity)
  (v : R) (low_cut_arg high_cut_arg : option (pyval Quantity))
  (min_fits_pts : Z) (verbose : bool) :
  to_pixel_freq (header p) (distance p) b = inr (Rpower 10 v) ->
  fit_pspec (Some b) false low_cut_arg high_cut_arg min_fits_pts verbose p =
  fit_pspec (Some (PyFloat v)) true low_cut_arg high_cut_arg min_fits_pts
    verbose p.
Proof.
  intros Hb. apply fit_pspec_guess_only.
  unfold guess_of, break_guess, _to_pixel_freq, mbind, mlift.
  cbn [negb]. rewrite Hb. cbn.
  f_equal. unfold Np.log10, Rpower. rewrite ln_exp. field.
  apply Rgt_not_eq. rewrite <- ln_1. apply ln_increasing; lra.
Qed.

End Pipeline.

(** A three-parameter result of the segmented fit. *)
Lemma failed_break_falls_back_witness :
  let r := fit_pspec (L := ex_lib_unconverged)
             (Some (PyQuantity (3 / 10, false))) false None None 10 false
             (ex_binned_in ex_lib_unconverged) in
  warnings (fst r) = [break_failed_msg] /\ brk (snd r) = inr None.
Proof.
  edestruct (failed_break_falls_back (L := ex_lib_unconverged)
               (ex_binned_in ex_lib_unconverged)
               (PyQuantity (3 / 10, false)) false None None 10 false)
    as (H1 & H2 & _).
  - reflexivity.
  - reflexivity.
  - reflexivity.
  - simpl. lia.
  - split; assumption.
Defined.

(** The accepted break of the stand-in fit, with [min_fits_pts=0]. *)
Lemma accepted_break_stores_segments_witness :
  let r := fit_pspec (L := ex_pspec_lib) (Some (PyQuantity (3 / 10))) false
             None None 0 false ex_binned in
  warnings (fst r) = [] /\
  slope (snd r) = inr (Arr [-1; -3]) /\
  slope_err (snd r) = inr (Arr [1 / 10; 1 / 10]) /\
  fit (snd r) = Some (FitSeg (L := ex_pspec_lib) tt).
Proof.
  refine (accepted_break_stores_segments (L := ex_pspec_lib) ex_binned
            (PyQuantity (3 / 10)) false None None 0 false _ _ _ _
            eq_refl eq_refl eq_refl eq_refl _).
  apply count_below_bounds.
Defined.

(** The same call returns, so both limits are set. *)
Lemma fit_pspec_returns_fitted_witness :
  let r := fit_pspec (L := ex_pspec_lib) (Some (PyQuantity (3 / 10))) false
             None None 0 false ex_binned in
  exists lo hi, low_cut (snd r) = Some lo /\ high_cut (snd r) = Some hi.
Proof.
  intros r.
  pose proof (fit_pspec_returns_fitted (L := ex_pspec_lib) ex_binned
                (Some (PyQuantity (3 / 10))) false None None 0 false) as H.
  cbv zeta in H. apply H. clear H.
  exact (f_equal (fun z => value (fst z))
           (fit_pspec_accepted (L := ex_pspec_lib) false false None None 0
              ex_binned _ _ eq_refl (PyQuantity (3 / 10)) _ _
              eq_refl eq_refl eq_refl (proj1 (count_below_bounds _ _)))).
Defined.

(** A segmented fit that raises. *)
Lemma break_errors_leave_results_witness :
  let p := ex_binned_in ex_lib_raising in
  let r := fit_pspec (L := ex_lib_raising)
             (Some (PyQuantity (3 / 10, false))) false None None 10 false p in
  fst r = raise ValueError /\
  _brk (snd r) = _brk p /\ _brk_err (snd r) = _brk_err p /\
  _slope (snd r) = _slope p /\ _slope_err (snd r) = _slope_err p /\
  fit (snd r) = fit p.
Proof.
  refine (break_errors_leave_results (L := ex_lib_raising)
            (ex_binned_in ex_lib_raising) (PyQuantity (3 / 10, false))
            false None None 10 false _ _ ValueError eq_refl _).
  right. eexists. split; reflexivity.
Defined.

(** The break at 10^-1 per pixel, and -1 in log space. *)
Lemma log_break_round_trip_witness :
  fit_pspec (L := ex_pspec_lib) (Some (PyQuantity (Rpower 10 (-1)))) false
    None None 10 false ex_binned =
  fit_pspec (L := ex_pspec_lib) (Some (PyFloat (-1))) true
    None None 10 false ex_binned.
Proof.
  apply (log_break_round_trip (L := ex_pspec_lib) ex_binned
           (PyQuantity (Rpower 10 (-1))) (-1)).
  reflexivity.
Defined.

End FitMore.

(** ** More on the pipeline: construction, spectrum and binning *)

Module PipelineMore.

Import NdVal PSpec PSpecFacts SpectrumFacts Examples.

(** The weighted value of a pixel: a NaN image value or a NaN weight
    counts as zero. *)
Definition weighted_pixel (px wt : option R) : R :=
  match px, wt with
  | Some x, Some w => x * w
  | _, _ => 0
  end.

Lemma zip_with_ones (a : list R) :
  Np.zip_with Rmult a (map (fun _ => 1) a) = a.
Proof.
  induction a as [|x a IH]; simpl; [reflexivity|].
  rewrite IH. f_equal. ring.
Qed.

Lemma zip_with2d_ones (a : list (list R)) :
  Np.zip_with2d Rmult a (Np.map2d (fun _ => 1) a) = a.
Proof.
  unfold Np.zip_with2d, Np.map2d.
  induction a as [|r a IH]; simpl; [reflexivity|].
  now rewrite IH, zip_with_ones.
Qed.

Lemma map2d_id {A} (a : list (list A)) : Np.map2d (fun x => x) a = a.
Proof.
  unfold Np.map2d. rewrite (map_ext _ (fun r => r)) by (intros; apply map_id).
  apply map_id.
Qed.

Section Pipeline.
Context {L : PSpecLib}.

(** X13.  The constructor replaces NaN pixels by zero; without weights the
    weighted data are the cleaned image itself, and with weights every
    weighted value is the product of pixel and weight, a NaN in either one
    counting as zero. *)
Theorem init_weighted_data (img : list (list (option R)))
  (hdr : option Header) (dist : option Quantity) (beam : option Beam) :
  data (init img hdr None dist beam) = nan_to_zero img /\
  weighted_data (init img hdr None dist beam) = nan_to_zero img /\
  forall w,
    data (init img hdr (Some w) dist beam) = nan_to_zero img /\
    weighted_data (init img hdr (Some w) dist beam) =
    Np.zip_with2d weighted_pixel img w.
Proof.
  split; [reflexivity|]. split.
  - unfold init. cbn [weighted_data]. apply zip_with2d_ones.
  - intros w. split; [reflexivity|].
    unfold init, nan_to_zero. cbn [weighted_data].
    rewrite <- (map2d_id (Np.zip_with2d Rmult _ _)).
    apply zip_with2d_map. intros [x|] [y|]; simpl; ring.
Qed.

(** The spectrum [compute_pspec] is about to store, or the exception it
    ends with. *)
Definition ps2D_value (beam_correct apodize : bool) (alpha : R)
  (p : PowerSpectrum) : exn + list (list R) :=
  let fft :=
    if apodize then
      Np.fftshift
        (rfft_to_fft (Np.zip_with2d Rmult (weighted_data p)
                        (apodizing_kernel (shape2d (data p)) alpha)))
    else Np.fftshift (rfft_to_fft (weighted_data p)) in
  match (if beam_correct then _beam p else None) with
  | Some beam =>
      match _wcs p with
      | None => inl AttributeError
      | Some [] => inl IndexError
      | Some (c :: _) =>
          inr (power2
                 (Np.zip_with2d Rdiv fft
                    (Np.fftshift
                       (rfft_to_fft
                          (beam_as_kernel beam c (fst (shape2d (data p)))
                             (snd (shape2d (data p))))))))
      end
  | None => inr (power2 fft)
  end.

Lemma compute_pspec_eq (p : PowerSpectrum) (bc ap : bool) (alpha : R) :
  compute_pspec bc ap alpha p =
  match ps2D_value bc ap alpha p with
  | inr v => (ret tt, set_ps2D v p)
  | inl e => (raise e, p)
  end.
Proof.
  unfold compute_pspec, ps2D_value.
  destruct (if bc then _beam p else None) as [b|]; [|reflexivity].
  destruct (_wcs p) as [[|c l]|] eqn:E.
  - now rewrite (mbind_get _ _ _ _ E), mbind_mlift_err.
  - now rewrite (mbind_get _ _ _ _ E), mbind_mlift_ok.
  - now rewrite (mbind_get_unset _ _ _ E).
Qed.

(** X14.  [compute_pspec] assigns [_ps2D] and nothing else, and only when
    it returns: an exception leaves the object as it was.  Calling it again
    with the same arguments changes nothing. *)
Theorem compute_pspec_idempotent (p : PowerSpectrum)
  (beam_correct apodize : bool) (alpha : R) :
  let r := compute_pspec beam_correct apodize alpha p in
  ((exists v, r = (ret tt, set_ps2D v p)) \/ (exists e, r = (raise e, p))) /\
  compute_pspec beam_correct apodize alpha (snd r) = r.
Proof.
  cbv zeta. rewrite compute_pspec_eq.
  destruct (ps2D_value beam_correct apodize alpha p) as [e | v] eqn:E;
    cbn [snd]; rewrite compute_pspec_eq.
  - rewrite E. split; [right; now exists e | reflexivity].
  - change (ps2D_value beam_correct apodize alpha (set_ps2D v p))
      with (ps2D_value beam_correct apodize alpha p).
    rewrite E. split; [left; now exists v | reflexivity].
Qed.

(** X15.  Asking for the beam correction on a pipeline that has a beam but
    no WCS does not degrade to the plain spectrum: the call raises
    AttributeError and stores nothing. *)
Theorem compute_pspec_beam_needs_wcs (p : PowerSpectrum) (b : Beam)
  (apodize : bool) (alpha : R) :
  _beam p = Some b -> _wcs p = None ->
  compute_pspec true apodize alpha p = (raise AttributeError, p).
Proof.
  intros Hb Hw. unfold compute_pspec. rewrite Hb.
  now rewrite (mbind_get_unset _ _ _ Hw).
Qed.

(** What a call of [compute_radial_pspec] amounts to. *)
Lemma compute_radial_pspec_cases (p : PowerSpectrum)
  (rs ls : bool) (mb : option R) :
  let r := compute_radial_pspec rs ls mb p in
  (exists e, r = (raise e, p)) \/
  (exists a f p1,
     _ps2D p = Some a /\
     ((rs = true /\ exists sd,
         pspec a true (Some ls) mb = inr (f, p1, Some sd) /\
         r = (ret tt,
              set_freqs f (set_stddev_flag true
                (set_ps1D_stddev (Some sd) (set_ps1D p1 (set_freqs f p))))))
      \/
      (rs = false /\
       pspec a false None mb = inr (f, p1, None) /\
       r = (ret tt,
            set_freqs f (set_stddev_flag false
              (set_ps1D p1 (set_freqs f p))))))).
Proof.
  unfold compute_radial_pspec. rewrite ?mbind_assoc.
  destruct (_ps2D p) as [a|] eqn:E2.
  2:{ left. exists AttributeError.
      destruct rs; rewrite ?mbind_assoc; now rewrite (mbind_get_unset _ _ _ E2). }
  destruct rs; rewrite ?mbind_assoc, (mbind_get _ _ _ _ E2), ?mbind_assoc.
  - destruct (pspec a true (Some ls) mb) as [e | [[f p1] [sd|]]] eqn:Ep.
    + left. exists e. now rewrite mbind_mlift_err.
    + right. exists a, f, p1. split; [reflexivity|]. left.
      split; [reflexivity|]. exists sd. split; [exact Ep|].
      rewrite mbind_mlift_ok.
      repeat (rewrite mbind_assoc || rewrite mbind_modify). step_get.
      reflexivity.
    + left. exists ValueError. rewrite mbind_mlift_ok, ?mbind_assoc.
      reflexivity.
  - destruct (pspec a false None mb) as [e | [[f p1] [sd|]]] eqn:Ep.
    + left. exists e. now rewrite mbind_mlift_err.
    + left. exists ValueError. rewrite mbind_mlift_ok, ?mbind_assoc.
      reflexivity.
    + right. exists a, f, p1. split; [reflexivity|]. right.
      split; [reflexivity|]. split; [exact Ep|].
      rewrite mbind_mlift_ok.
      repeat (rewrite mbind_assoc || rewrite mbind_modify). step_get.
      reflexivity.
Qed.

(** X16.  [compute_radial_pspec] is all or nothing: when it raises (no 2D
    spectrum yet, the binning raises, or it returns the wrong number of
    arrays) the object is left as it was; in particular binning before
    [compute_pspec] raises AttributeError. *)
Theorem compute_radial_pspec_atomic (p : PowerSpectrum)
  (return_stddev logspacing : bool) (max_bin : option R) :
  let r := compute_radial_pspec return_stddev logspacing max_bin p in
  (forall e, value (fst r) = inl e -> snd r = p) /\
  (_ps2D p = None -> r = (raise AttributeError, p)).
Proof.
  cbv zeta. split.
  - intros e He.
    destruct (compute_radial_pspec_cases p return_stddev logspacing max_bin)
      as [(e' & Hr) | (a & f & p1 & _ & [(_ & sd & _ & Hr) | (_ & _ & Hr)])];
      rewrite Hr in *; [reflexivity | discriminate | discriminate].
  - intros H2. unfold compute_radial_pspec. rewrite ?mbind_assoc.
    destruct return_stddev; rewrite ?mbind_assoc;
      now rewrite (mbind_get_unset _ _ _ H2).
Qed.

(** X17.  A returning [compute_radial_pspec] stores the frequencies and the
    profile that the binning returned, sets the flag to [return_stddev],
    and hands the [logspacing] argument to the binning only when standard
    deviations are asked for; with them, [ps1D_stddev] returns the array of
    the binning. *)
Theorem compute_radial_pspec_stores (p : PowerSpectrum)
  (return_stddev logspacing : bool) (max_bin : option R) :
  let r := compute_radial_pspec return_stddev logspacing max_bin p in
  value (fst r) = inr tt ->
  exists a f p1 sd,
    _ps2D p = Some a /\
    pspec a return_stddev (if return_stddev then Some logspacing else None)
          max_bin = inr (f, p1, sd) /\
    _freqs (snd r) = Some f /\ _ps1D (snd r) = Some p1 /\
    _stddev_flag (snd r) = Some return_stddev /\
    (return_stddev = true ->
     exists s, sd = Some s /\ ps1D_stddev (snd r) = (ret (Some s), snd r)).
Proof.
  cbv zeta. intros Hok.
  destruct (compute_radial_pspec_cases p return_stddev logspacing max_bin)
    as [(e' & Hr) | (a & f & p1 & H2 & [(-> & sd & Hp & Hr) | (-> & Hp & Hr)])];
    rewrite Hr in *; [discriminate | |].
  - exists a, f, p1, (Some sd). repeat split; try assumption.
    intros _. exists sd. split; reflexivity.
  - exists a, f, p1, None. repeat split; try assumption.
    intros H. discriminate H.
Qed.

(** X18.  Standard deviations are not cleared: after a call with
    [return_stddev=True] and a later call with [return_stddev=False], both
    returning, [ps1D_stddev] still returns the array of the first call,
    without a warning, although the flag now says there is none. *)
Theorem stale_stddev_survives (p : PowerSpectrum)
  (ls ls' : bool) (mb mb' : option R) :
  let r1 := compute_radial_pspec true ls mb p in
  let r2 := compute_radial_pspec false ls' mb' (snd r1) in
  value (fst r1) = inr tt -> value (fst r2) = inr tt ->
  exists sd,
    ps1D_stddev (snd r1) = (ret (Some sd), snd r1) /\
    _stddev_flag (snd r2) = Some false /\
    ps1D_stddev (snd r2) = (ret (Some sd), snd r2).
Proof.
  cbv zeta. intros H1 H2.
  destruct (compute_radial_pspec_cases p true ls mb)
    as [(e' & Hr) | (a & f & p1 & _ & [(_ & sd & _ & Hr) | (Hf & _)])];
    [rewrite Hr in H1; discriminate | | discriminate].
  rewrite Hr in *. cbn [snd] in *.
  destruct (compute_radial_pspec_cases
              (set_freqs f (set_stddev_flag true
                 (set_ps1D_stddev (Some sd) (set_ps1D p1 (set_freqs f p)))))
              false ls' mb')
    as [(e' & Hr2) | (a' & f' & p1' & _ & [(Hf & _) | (_ & _ & Hr2)])];
    [rewrite Hr2 in H2; discriminate | discriminate |].
  rewrite Hr2. exists sd. repeat split.
Qed.

End Pipeline.

(** The example image with weights that have a NaN of their own. *)
Lemma compute_pspec_beam_needs_wcs_witness :
  compute_pspec (L := ex_pspec_lib) true true (3 / 10)
    (init (L := ex_pspec_lib) ex_image None None None (Some tt)) =
  (raise AttributeError,
   init (L := ex_pspec_lib) ex_image None None None (Some tt)).
Proof.
  apply (compute_pspec_beam_needs_wcs (L := ex_pspec_lib) _ tt);
    reflexivity.
Defined.

(** Binning the example spectrum with standard deviations. *)
Lemma compute_radial_pspec_stores_witness :
  let r := compute_radial_pspec (L := ex_pspec_lib) true false None
             (snd (compute_pspec (L := ex_pspec_lib) true true (3 / 10)
                     ex_ps)) in
  exists a f p1 sd,
    _ps2D (snd (compute_pspec (L := ex_pspec_lib) true true (3 / 10) ex_ps))
      = Some a /\
    pspec (PSpecLib := ex_pspec_lib) a true (Some false) None
      = inr (f, p1, sd) /\
    _freqs (snd r) = Some f /\ _ps1D (snd r) = Some p1 /\
    _stddev_flag (snd r) = Some true /\
    (true = true ->
     exists s, sd = Some s /\ ps1D_stddev (snd r) = (ret (Some s), snd r)).
Proof.
  apply (compute_radial_pspec_stores (L := ex_pspec_lib)
           (snd (compute_pspec (L := ex_pspec_lib) true true (3 / 10) ex_ps))
           true false None).
  reflexivity.
Defined.

(** With standard deviations first, without them afterwards. *)
Lemma stale_stddev_survives_witness :
  let p := snd (compute_pspec (L := ex_pspec_lib) true true (3 / 10) ex_ps) in
  let r1 := compute_radial_pspec (L := ex_pspec_lib) true false None p in
  let r2 := compute_radial_pspec (L := ex_pspec_lib) false false None
              (snd r1) in
  exists sd,
    ps1D_stddev (snd r1) = (ret (Some sd), snd r1) /\
    _stddev_flag (snd r2) = Some false /\
    ps1D_stddev (snd r2) = (ret (Some sd), snd r2).
Proof.
  apply (stale_stddev_survives (L := ex_pspec_lib)
           (snd (compute_pspec (L := ex_pspec_lib) true true (3 / 10) ex_ps))
           false false None None); reflexivity.
Defined.

End PipelineMore.

(** ** run and PSpec_Distance.__init__ (pspec.py) *)

Module PSpecRun.

Import NdVal PSpec.

(** What [run] and [PSpec_Distance.__init__] use beyond [PSpecLib]:
    [self.fit_2Dpspec(low_cut=, high_cut=)] and
    [fitting_utils.check_fit_limits(low_cut, high_cut)], which returns the
    limits of the two data sets. *)
Class RunLib (L : PSpecLib) : Type := {
  fit_2Dpspec :
    option (pyval Quantity) -> option (pyval Quantity) ->
    method PowerSpectrum unit;
  LimitsArg : Type;
  check_fit_limits :
    LimitsArg -> LimitsArg ->
    exn + (list (option (pyval Quantity)) * list (option (pyval Quantity)))
}.

Section Run.
Context {L : PSpecLib} {RL : RunLib L}.

(** [PowerSpectrum.run] (lines 84-142) with [verbose=False]: the stages in
    order; [max_bin] stands for [radial_pspec_kwargs], and [brk],
    [log_break] and [min_fits_pts] for [fit_kwargs], which cannot carry
    [verbose]. *)
Definition run (apodize : bool) (alpha : R)
  (beam_correct logspacing return_stddev : bool)
  (low_cut_arg high_cut_arg : option (pyval Quantity)) (fit_2D : bool)
  (max_bin : option R) (brk_arg : option (pyval Quantity))
  (log_break : bool) (min_fits_pts : Z) : method PowerSpectrum unit :=
  mbind (compute_pspec beam_correct apodize alpha) (fun _ =>
  mbind (compute_radial_pspec return_stddev logspacing max_bin) (fun _ =>
  mbind (fit_pspec brk_arg log_break low_cut_arg high_cut_arg
           min_fits_pts false) (fun _ =>
  if fit_2D then fit_2Dpspec low_cut_arg high_cut_arg else mret tt))).

(** The [breaks] argument: one value for both data sets, or a list. *)
Inductive breaks_arg : Type :=
| OneBreak (b : option (pyval Quantity))
| BreakList (bs : list (option (pyval Quantity))).

(** [l[i]] *)
Definition index {A} (l : list A) (i : nat) : exn + A :=
  match nth_error l i with
  | Some v => inr v
  | None => inl IndexError
  end.

(** A method called on a new object: the object it leaves, when it
    returns. *)
Definition run_on (m : method PowerSpectrum unit) (p : PowerSpectrum)
  : outcome PowerSpectrum :=
  Outcome (warnings (fst (m p)))
          (match value (fst (m p)) with
           | inl e => inl e
           | inr _ => inr (snd (m p))
           end).

(** The [run] call of [__init__] for one data set (lines 194-198 and
    202-206). *)
Definition run_data_set (data : list (list (option R)))
  (weights : option (list (list (option R))))
  (lims : list (option (pyval Quantity)) * list (option (pyval Quantity)))
  (breaks : list (option (pyval Quantity))) (i : nat)
  (logspacing : bool) (phys_distance : option Quantity)
  : outcome PowerSpectrum :=
  bind (lift (index (fst lims) i)) (fun lc =>
  bind (lift (index (snd lims) i)) (fun hc =>
  bind (lift (index breaks i)) (fun b =>
  run_on (run true (2 / 10) true logspacing true lc hc false None b false 10)
         (init data None weights phys_distance None)))).

(** [PSpec_Distance.__init__] (lines 183-209). *)
Definition PSpec_Distance_init (data1 data2 : list (list (option R)))
  (weights1 weights2 : option (list (list (option R))))
  (breaks : breaks_arg) (fiducial_model : option PowerSpectrum)
  (low_cut_arg high_cut_arg : LimitsArg) (logspacing : bool)
  (phys_distance : option Quantity) : outcome PSpec_Distance :=
  bind (lift (check_fit_limits low_cut_arg high_cut_arg)) (fun lims =>
  let breaks := match breaks with
                | OneBreak b => [b; b]
                | BreakList bs => bs
                end in
  bind (match fiducial_model with
        | None => run_data_set data1 weights1 lims breaks 0 logspacing
                    phys_distance
        | Some m => ret m
        end) (fun p1 =>
  bind (run_data_set data2 weights2 lims breaks 1 logspacing phys_distance)
       (fun p2 =>
  ret (mkPD p1 p2 None None)))).

(** Every entry of a numpy value satisfies [P]. *)
Definition nd_forall (P : R -> Prop) (v : ndval) : Prop :=
  match v with
  | Scalar x => P x
  | Arr xs => Forall P xs
  end.

End Run.

End PSpecRun.

(** ** What the fit stage leaves alone; run; the distance constructor *)

Module RunFacts.

Import NdVal PSpec PSpecFacts FitFacts FitMore PipelineMore DistanceFacts
  PSpecRun Examples.

Section Frame.
Context {L : PSpecLib}.

(** What the earlier stages have put on the object: the data, the WCS and
    beam, the 2D spectrum, the profile and its standard deviations. *)
Definition measured (s : PowerSpectrum) :=
  (data s, weighted_data s, header s, _wcs s, _beam s, distance s,
   _ps2D s, _freqs s, _ps1D s, _ps1D_stddev s, _stddev_flag s).

Definition keeps {A} (m : method PowerSpectrum A) : Prop :=
  forall s, measured (snd (m s)) = measured s.

Lemma keeps_mret {A} (a : A) : keeps (mret a).
Proof. intros s. reflexivity. Qed.

Lemma keeps_mraise {A} (e : exn) : keeps (mraise (A := A) e).
Proof. intros s. reflexivity. Qed.

Lemma keeps_mwarn (msg : string) : keeps (mwarn msg).
Proof. intros s. reflexivity. Qed.

Lemma keeps_mlift {A} (r : exn + A) : keeps (mlift r).
Proof. intros s. reflexivity. Qed.

Lemma keeps_get {A} (proj : PowerSpectrum -> attr A) : keeps (get proj).
Proof. intros s. reflexivity. Qed.

Lemma keeps_mbind {A B} (m : method PowerSpectrum A)
  (k : A -> method PowerSpectrum B) :
  keeps m -> (forall a, keeps (k a)) -> keeps (mbind m k).
Proof.
  intros Hm Hk s. unfold mbind. specialize (Hm s).
  destruct (m s) as [[w [e | a]] s1]; cbn [snd value] in *; [exact Hm|].
  specialize (Hk a s1).
  destruct (k a s1) as [[w2 v2] s2]; cbn [snd] in *. congruence.
Qed.

Lemma keeps_set_low_cut v : keeps (modify (set_low_cut v)).
Proof. intros s. reflexivity. Qed.
Lemma keeps_set_high_cut v : keeps (modify (set_high_cut v)).
Proof. intros s. reflexivity. Qed.
Lemma keeps_set_brk v : keeps (modify (set_brk v)).
Proof. intros s. reflexivity. Qed.
Lemma keeps_set_brk_err v : keeps (modify (set_brk_err v)).
Proof. intros s. reflexivity. Qed.
Lemma keeps_set_slope v : keeps (modify (set_slope v)).
Proof. intros s. reflexivity. Qed.
Lemma keeps_set_slope_err v : keeps (modify (set_slope_err v)).
Proof. intros s. reflexivity. Qed.
Lemma keeps_set_fit v : keeps (modify (set_fit v)).
Proof. intros s. reflexivity. Qed.

Lemma keeps_to_pixel_freq q : keeps (_to_pixel_freq q).
Proof. intros s. reflexivity. Qed.

Create HintDb keeps.
#[local] Hint Resolve keeps_mret keeps_mraise keeps_mwarn keeps_mlift
  keeps_get keeps_set_low_cut keeps_set_high_cut keeps_set_brk
  keeps_set_brk_err keeps_set_slope keeps_set_slope_err keeps_set_fit
  keeps_to_pixel_freq : keeps.

(** Walks through a method built from binds, branches and the steps
    above. *)
Ltac keeps_walk :=
  repeat first
    [ apply keeps_mbind; [|intros]
    | match goal with
      | |- keeps (match ?x with _ => _ end) => destruct x
      | |- keeps (if ?c then _ else _) => destruct c
      end
    | solve [auto with keeps] ].

(** X19.  [fit_pspec] assigns fit results only: whatever its arguments and
    however it ends, the data, header, WCS, beam and distance, the 2D
    spectrum, the frequencies, the profile, its standard deviations and
    their flag are as before the call. *)
Theorem fit_pspec_keeps_measurements (brk_arg : option (pyval Quantity))
  (log_break : bool) (low_cut_arg high_cut_arg : option (pyval Quantity))
  (min_fits_pts : Z) (verbose : bool) (p : PowerSpectrum) :
  measured (snd (fit_pspec brk_arg log_break low_cut_arg high_cut_arg
                   min_fits_pts verbose p)) = measured p.
Proof.
  revert p. change (keeps (fit_pspec brk_arg log_break low_cut_arg
                             high_cut_arg min_fits_pts verbose)).
  unfold fit_pspec, set_fit_limits, fit_data, fit_break, break_guess,
    fit_no_break.
  keeps_walk.
Qed.

End Frame.

(** *** Entry-wise facts about numpy values *)

Section Entries.
Variables (P Q : R -> Prop).

Lemma zip_with_Forall (f : R -> R -> R) (a b : list R) :
  (forall x y, Q (f x y)) -> Forall Q (Np.zip_with f a b).
Proof.
  intros H. revert b. induction a as [|x a IH]; intros [|y b]; simpl;
    constructor; auto.
Qed.

Lemma zip_with_Forall_l (f : R -> R -> R) (a b : list R) :
  (forall x y, P x -> Q (f x y)) ->
  Forall P a -> Forall Q (Np.zip_with f a b).
Proof.
  intros H Ha. revert b. induction Ha as [|x a Hx Ha IH]; intros [|y b];
    simpl; constructor; auto.
Qed.

Lemma map_Forall (h : R -> R) (a : list R) :
  (forall x, P x -> Q (h x)) -> Forall P a -> Forall Q (map h a).
Proof. intros H Ha. induction Ha; simpl; constructor; auto. Qed.


(** An operand whose entries satisfy [P] passes [Q] on to the result of a
    broadcast, when the operator does so entry by entry. *)
Lemma broadcast2_forall_l (f : R -> R -> R) (a b d : ndval) :
  (forall x y, P x -> Q (f x y)) ->
  nd_forall P a -> broadcast2 f a b = inr d -> nd_forall Q d.
Proof.
  intros H Ha. destruct a as [x | xs], b as [y | ys]; simpl in *.
  - intros [= <-]. simpl. auto.
  - intros [= <-]. simpl. induction ys; simpl; constructor; auto.
  - intros [= <-]. simpl. apply map_Forall; auto.
  - destruct (length xs =? length ys)%nat.
    + intros [= <-]. simpl. now apply zip_with_Forall_l.
    + destruct xs as [|x [|x' xs]]; destruct ys as [|y [|y' ys]];
        cbv beta iota; try discriminate; intros [= <-]; cbn [nd_forall];
        rewrite Forall_forall in Ha; apply Forall_forall; intros z Hz;
        simpl in Hz;
        repeat (destruct Hz as [<- | Hz];
                [apply H; apply Ha; simpl; now auto|]);
        try contradiction;
        apply in_map_iff in Hz as (u & <- & Hu);
        apply H; apply Ha; simpl; now auto.
Qed.

End Entries.

(** The difference of a value with itself is zero in every entry. *)
Lemma nd_sub_self (s d : ndval) :
  nd_sub s s = inr d -> nd_forall (fun x => x = 0) d.
Proof.
  destruct s as [x | xs]; simpl.
  - intros [= <-]. simpl. ring.
  - rewrite Nat.eqb_refl. intros [= <-]. simpl.
    induction xs; simpl; constructor; [ring | assumption].
Qed.

Lemma ndmap_forall_l (P Q : R -> Prop) (h : R -> R) (a : ndval) :
  (forall x, P x -> Q (h x)) -> nd_forall P a -> nd_forall Q (ndmap h a).
Proof.
  intros H. destruct a as [x | xs]; simpl; [apply H|].
  now apply map_Forall.
Qed.

Section Distance.
Context {L : PSpecLib}.

(** What a distance that was computed went through. *)
Lemma distance_of_inv (p1 p2 : PowerSpectrum) (d : ndval) :
  distance_of p1 p2 = inr d ->
  exists s1 s2 e1 e2 num ss q,
    slope p1 = inr s1 /\ slope p2 = inr s2 /\
    slope_err p1 = inr e1 /\ slope_err p2 = inr e2 /\
    nd_sub s1 s2 = inr num /\
    nd_add (nd_square e1) (nd_square e2) = inr ss /\
    nd_div num (nd_sqrt ss) = inr q /\ d = nd_abs q.
Proof.
  unfold distance_of, ebind.
  destruct (slope p1) as [e | s1]; [discriminate|].
  destruct (slope p2) as [e | s2]; [discriminate|].
  destruct (nd_sub s1 s2) as [e | num] eqn:En; [discriminate|].
  destruct (slope_err p1) as [e | e1]; [discriminate|].
  destruct (slope_err p2) as [e | e2]; [discriminate|].
  destruct (nd_add (nd_square e1) (nd_square e2)) as [e | ss] eqn:Es;
    [discriminate|].
  destruct (nd_div num (nd_sqrt ss)) as [e | q] eqn:Eq; [discriminate|].
  intros [= <-]. exists s1, s2, e1, e2, num, ss, q. now repeat split.
Qed.

(** What a returning [distance_metric] has done. *)
Lemma distance_metric_returns (pd : PSpec_Distance) :
  value (fst (distance_metric pd)) = inr tt ->
  exists d,
    distance_of (pspec1 pd) (pspec2 pd) = inr d /\
    snd (distance_metric pd) =
    mkPD (pspec1 pd) (pspec2 pd) (results pd) (Some d).
Proof.
  unfold distance_metric.
  destruct (distance_of (pspec1 pd) (pspec2 pd)) as [e | d].
  - rewrite mbind_mlift_err. discriminate.
  - rewrite mbind_mlift_ok. intros _. now exists d.
Qed.

End Distance.

End RunFacts.

(** ** Stand-ins for run and the distance constructor *)

Module Examples3.

Import Examples PSpec PSpecRun.

(** The stand-in library with a regression that always yields the same
    line, a 2D fit that does nothing, and limits that are shared by the two
    data sets. *)
Definition ex_lib_fixed_ols : PSpecLib :=
  {| Quantity := R;
     quantity_value := fun q => q;
     is_dimensionless := fun _ => true;
     Header := list R;
     header_cdelt := fun h => h;
     Beam := unit;
     beam_as_kernel := fun _ _ ny nx => repeat (repeat 1 nx) ny;
     apodizing_kernel := fun sh _ => repeat (repeat 1 (snd sh)) (fst sh);
     fft2 := dft2;
     pspec := fun _ return_stddev _ _ =>
       inr ([1 / 10; 2 / 10; 5 / 10], [100; 10; 1],
            if return_stddev then Some [1; 1; 1] else None);
     clip_func := fun arr lo hi =>
       map (fun v => andb (Np.ltb lo v) (Np.ltb v hi)) arr;
     to_pixel_freq := fun _ _ q =>
       match q with
       | PyQuantity v => inr v
       | PyFloat _ => inl TypeError
       end;
     SegFit := unit;
     Lm_Seg_fit_model := fun _ _ b _ =>
       inr (mkLm_Seg 5 b (1 / 10) [-1; -3] [1 / 10; 1 / 10] tt);
     OLS_fit := fun _ _ => inr (mkOLS [2; -2] [1 / 10; 2 / 10])
  |}.

Definition ex_run_lib : RunLib ex_lib_fixed_ols :=
  {| fit_2Dpspec := fun _ _ => mret tt;
     LimitsArg := option (pyval (Quantity (PSpecLib := ex_lib_fixed_ols)));
     check_fit_limits := fun lo hi => inr ([lo; lo], [hi; hi])
  |}.

(** The pipeline that the distance constructor builds from the example
    image, with the defaults of [__init__]. *)
Definition ex_self : PowerSpectrum (L := ex_lib_fixed_ols) :=
  snd (run (RL := ex_run_lib) true (2 / 10) true false true None None false
         None None false 10
         (init (L := ex_lib_fixed_ols) ex_image None None None None)).

End Examples3.

(** ** run, the distance constructor and the distance *)

Module RunMore.

Import NdVal PSpec PSpecFacts FitFacts FitMore PipelineMore DistanceFacts
  PSpecRun RunFacts Examples Examples3.

Section Run.
Context {L : PSpecLib} {RL : RunLib L}.

(** X20.  Two arguments of [run] can be without effect: on a pipeline
    without a beam the whole run is the same for either value of
    [beam_correct], and with [return_stddev=False] it is the same for
    either value of [logspacing]. *)
Theorem run_ignored_arguments (p : PowerSpectrum) (apodize : bool)
  (alpha : R) (low_cut_arg high_cut_arg : option (pyval Quantity))
  (fit_2D : bool) (max_bin : option R) (brk_arg : option (pyval Quantity))
  (log_break : bool) (min_fits_pts : Z) :
  (_beam p = None ->
   forall logspacing return_stddev,
     run apodize alpha true logspacing return_stddev low_cut_arg
         high_cut_arg fit_2D max_bin brk_arg log_break min_fits_pts p =
     run apodize alpha false logspacing return_stddev low_cut_arg
         high_cut_arg fit_2D max_bin brk_arg log_break min_fits_pts p) /\
  (forall beam_correct logspacing logspacing',
     run apodize alpha beam_correct logspacing false low_cut_arg
         high_cut_arg fit_2D max_bin brk_arg log_break min_fits_pts p =
     run apodize alpha beam_correct logspacing' false low_cut_arg
         high_cut_arg fit_2D max_bin brk_arg log_break min_fits_pts p).
Proof.
  split.
  - intros Hb ls rs. unfold run. apply mbind_head.
    now rewrite (compute_pspec_no_beam p apodize alpha Hb true),
      (compute_pspec_no_beam p apodize alpha Hb false).
  - intros bc ls ls'. reflexivity.
Qed.

(** X21.  [run] stops at the first stage that raises and keeps what the
    stages before it stored: an exception of [compute_pspec] ends the run
    with the object as it was; an exception of [compute_radial_pspec] ends
    it with the 2D spectrum stored and nothing else changed. *)
Theorem run_stops_at_failure (p : PowerSpectrum) (apodize : bool)
  (alpha : R) (beam_correct logspacing return_stddev : bool)
  (low_cut_arg high_cut_arg : option (pyval Quantity))
  (fit_2D : bool) (max_bin : option R) (brk_arg : option (pyval Quantity))
  (log_break : bool) (min_fits_pts : Z) (e : exn) :
  let r := run apodize alpha beam_correct logspacing return_stddev
             low_cut_arg high_cut_arg fit_2D max_bin brk_arg log_break
             min_fits_pts p in
  let r1 := compute_pspec beam_correct apodize alpha p in
  (value (fst r1) = inl e -> r = (raise e, p)) /\
  (value (fst r1) = inr tt ->
   value (fst (compute_radial_pspec return_stddev logspacing max_bin
                 (snd r1))) = inl e ->
   exists v, snd r1 = set_ps2D v p /\ r = (raise e, set_ps2D v p)).
Proof.
  cbv zeta. unfold run.
  pose proof (compute_pspec_eq p beam_correct apodize alpha) as Hc.
  destruct (ps2D_value beam_correct apodize alpha p) as [e' | v].
  - rewrite Hc. split; [|discriminate]. cbn [fst value]. intros [= ->].
    now rewrite (mbind_known_err _ _ _ _ _ _ Hc).
  - rewrite Hc. split; [discriminate|]. cbn [fst snd value]. intros _ Hrad.
    exists v. split; [reflexivity|].
    rewrite (mbind_known _ _ _ _ _ _ Hc).
    destruct (compute_radial_pspec_cases (set_ps2D v p) return_stddev
                logspacing max_bin)
      as [(e' & Hr) | (a & f & p1 & _ & [(_ & sd & _ & Hr) | (_ & _ & Hr)])];
      rewrite Hr in Hrad; try discriminate.
    injection Hrad as <-.
    now rewrite (mbind_known_err _ _ _ _ _ _ Hr).
Qed.

(** X22.  With a fiducial model, [PSpec_Distance] uses it as it is for the
    first data set: the constructor does not look at [data1], [weights1]
    or the first break, and what it returns has the fiducial model as
    [pspec1] and no results and no distance yet. *)
Theorem fiducial_model_is_reused (m : PowerSpectrum)
  (data2 : list (list (option R)))
  (weights2 : option (list (list (option R))))
  (low_cut_arg high_cut_arg : LimitsArg) (logspacing : bool)
  (phys_distance : option Quantity) :
  (forall data1 data1' weights1 weights1' b0 b0' b1 rest,
     PSpec_Distance_init data1 data2 weights1 weights2
       (BreakList (b0 :: b1 :: rest)) (Some m) low_cut_arg high_cut_arg
       logspacing phys_distance =
     PSpec_Distance_init data1' data2 weights1' weights2
       (BreakList (b0' :: b1 :: rest)) (Some m) low_cut_arg high_cut_arg
       logspacing phys_distance) /\
  (forall data1 weights1 breaks obj,
     value (PSpec_Distance_init data1 data2 weights1 weights2 breaks
              (Some m) low_cut_arg high_cut_arg logspacing phys_distance)
     = inr obj ->
     pspec1 obj = m /\ results obj = None /\ pd_distance obj = None).
Proof.
  split; [reflexivity|].
  intros data1 weights1 breaks obj. unfold PSpec_Distance_init.
  destruct (check_fit_limits low_cut_arg high_cut_arg) as [e | lims];
    [rewrite RegridFacts.bind_lift_err; discriminate|].
  rewrite RegridFacts.bind_lift_ok.
  change (bind (ret m) ?k) with (bind (lift (inr m)) k).
  rewrite RegridFacts.bind_lift_ok.
  destruct (run_data_set data2 weights2 lims _ 1 logspacing phys_distance)
    as [w [e | p2]]; unfold bind; cbn [value warnings];
    [discriminate|].
  intros [= <-]. now repeat split.
Qed.

End Run.

Section Distance.
Context {L : PSpecLib}.


End Distance.

Section SelfDistance.
Context {L : PSpecLib} {RL : RunLib L}.

(** X23.  The distance of a data set to itself is zero: when the
    constructor is given the same data and weights twice, one break for
    both, no fiducial model and limits that are the same for the two data
    sets, the two pipelines it builds are equal, and every entry of the
    distance that [distance_metric] then stores is 0. *)
Theorem self_distance_zero (data : list (list (option R)))
  (weights : option (list (list (option R))))
  (b : option (pyval Quantity)) (low_cut_arg high_cut_arg : LimitsArg)
  (logspacing : bool) (phys_distance : option Quantity)
  (los his : list (option (pyval Quantity))) (obj : PSpec_Distance) :
  check_fit_limits low_cut_arg high_cut_arg = inr (los, his) ->
  index los 0 = index los 1 -> index his 0 = index his 1 ->
  value (PSpec_Distance_init data data weights weights (OneBreak b) None
           low_cut_arg high_cut_arg logspacing phys_distance) = inr obj ->
  pspec1 obj = pspec2 obj /\
  (value (fst (distance_metric obj)) = inr tt ->
   exists d, pd_distance (snd (distance_metric obj)) = Some d /\
             nd_forall (fun x => x = 0) d).
Proof.
  intros Hlim Hlo Hhi. unfold PSpec_Distance_init.
  rewrite Hlim, RegridFacts.bind_lift_ok.
  assert (Hsame :
    run_data_set data weights (los, his) [b; b] 0 logspacing phys_distance =
    run_data_set data weights (los, his) [b; b] 1 logspacing phys_distance).
  { unfold run_data_set. cbn [fst snd]. now rewrite Hlo, Hhi. }
  rewrite Hsame.
  destruct (run_data_set data weights (los, his) [b; b] 1 logspacing
              phys_distance) as [w [e | p0]];
    unfold bind; cbn [value warnings]; [discriminate|].
  intros [= <-]. split; [reflexivity|].
  intros Hok.
  destruct (distance_metric_returns _ Hok) as (d & Hd & Hst).
  rewrite Hst. exists d. split; [reflexivity|].
  cbn [pspec1 pspec2] in Hd.
  destruct (distance_of_inv _ _ _ Hd)
    as (s1 & s2 & e1 & e2 & num & ss & q & H1 & H2 & _ & _ & Hn & _ & Hq & ->).
  rewrite H1 in H2. injection H2 as <-.
  apply (ndmap_forall_l (fun x => x = 0)); [intros x ->; apply Rabs_R0|].
  apply (broadcast2_forall_l (fun x => x = 0) (fun x => x = 0)
           Rdiv num (nd_sqrt ss)); [| | exact Hq].
  - intros x y ->. unfold Rdiv. ring.
  - now apply (nd_sub_self s1).
Qed.

End SelfDistance.


(** The run on the example image returns, without a warning. *)
Lemma ex_self_run :
  fst (run (RL := ex_run_lib) true (2 / 10) true false true None None false
         None None false 10
         (init (L := ex_lib_fixed_ols) ex_image None None None None)) =
  ret tt.
Proof. reflexivity. Qed.

Lemma ex_self_data_set (i : nat) :
  (i < 2)%nat ->
  run_data_set (RL := ex_run_lib) ex_image None
    ([None; None], [None; None]) [None; None] i false None =
  Outcome [] (inr ex_self).
Proof.
  intros Hi. unfold run_data_set.
  assert (Hidx : forall (A : Type) (x : A), index [x; x] i = inr x).
  { intros A x. destruct i as [|[|i]]; [reflexivity | reflexivity | lia]. }
  cbv beta iota delta [fst snd].
  rewrite !Hidx, !RegridFacts.bind_lift_ok.
  unfold run_on. rewrite ex_self_run.
  cbv beta iota delta [warnings value ret]. unfold ex_self. reflexivity.
Qed.

(** The example image against itself. *)
Lemma self_distance_zero_witness :
  let obj := mkPD ex_self ex_self None None in
  pspec1 obj = pspec2 obj /\
  (value (fst (distance_metric obj)) = inr tt ->
   exists d, pd_distance (snd (distance_metric obj)) = Some d /\
             nd_forall (fun x => x = 0) d).
Proof.
  apply (self_distance_zero (RL := ex_run_lib) ex_image None None None None
           false None [None; None] [None; None]
           (mkPD ex_self ex_self None None)).
  - reflexivity.
  - reflexivity.
  - reflexivity.
  - unfold PSpec_Distance_init.
    change (check_fit_limits (RunLib := ex_run_lib) None None)
      with (inr ([None; None], [None; None])
            : exn + (list (option
                             (pyval (Quantity (PSpecLib := ex_lib_fixed_ols))))
                     * list (option
                               (pyval
                                  (Quantity (PSpecLib := ex_lib_fixed_ols)))))).
    rewrite RegridFacts.bind_lift_ok. cbv beta iota zeta.
    rewrite (ex_self_data_set 0), (ex_self_data_set 1) by lia.
    reflexivity.
Defined.

End RunMore.
